(** * Inline heap operations of V8 ([src/heap/heap-inl.h])

    A shallow embedding of the allocation dispatcher, the generational write
    barrier, the allocation-memento lookup, the allocation/move
    instrumentation hooks and the external-string finalizer, together with
    the properties the design document states about them.

    Conventions.
    - The release configuration is modelled: [DCHECK]s and [#ifdef DEBUG]
      blocks are compiled out.
    - A tagged [Object*] is the inductive [Object]; a [HeapObject*] is the
      untagged [Address] of the object, [nullptr] is [None].
    - An [Address] is an unsigned machine word: address arithmetic wraps at
      [2 ^ kBitsPerPointer].  A C++ [int] whose overflow is undefined is an
      unbounded [Z].
    - Calls to collaborators that live in other translation units (space
      allocators, profiler, logger, resource disposal) are recorded, in
      program order, in the [trace] of the heap; so is every entry into
      [OnAllocationEvent] and [OnMoveEvent]. *)

From Stdlib Require Import ZArith List Bool Lia.
From stdpp Require Import base option list gmap.

Local Open Scope Z_scope.

(** ** Platform constants

    [globals.h], [spaces.h] and [objects.h] are not part of the sources at
    hand: their constants are fields of a class, constrained only by what
    [heap-inl.h] itself relies on. *)

Class Platform := {
  kPointerSize : Z;
  kPageSizeBits : Z;
  kSpaceTagSize : Z;
  kMaxRegularHeapObjectSize : Z;
  FixedArray_kHeaderSize : Z;
  ExternalString_kResourceOffset : Z
}.

Definition kBitsPerPointer `{Platform} : Z := 8 * kPointerSize.

(** Well-formedness of the constants: a 32- or 64-bit target, a space tag
    wide enough for the five allocation spaces (the last one is numbered
    4), and the [STATIC_ASSERT (kSpaceTagSize + kPageSizeBits <= 32)] of
    [Heap::UpdateAllocationsHash]. *)
Record PlatformOk `{Platform} : Prop := {
  kPointerSize_4_or_8 : kPointerSize = 4 \/ kPointerSize = 8;
  kPageSizeBits_lo : 4 <= kPageSizeBits;
  space_tag_holds_spaces : 0 <= kSpaceTagSize /\ 4 < 2 ^ kSpaceTagSize;
  space_tag_fits : kSpaceTagSize + kPageSizeBits <= 32
}.

(** ** Data model *)

Definition Address := Z.

Inductive AllocationSpace :=
| NEW_SPACE | OLD_SPACE | CODE_SPACE | MAP_SPACE | LO_SPACE.

#[global] Instance AllocationSpace_eq_dec : EqDecision AllocationSpace.
Proof. solve_decision. Defined.

(** Enumerators are numbered in declaration order. *)
Definition AllocationSpace_to_int (space : AllocationSpace) : Z :=
  match space with
  | NEW_SPACE => 0 | OLD_SPACE => 1 | CODE_SPACE => 2
  | MAP_SPACE => 3 | LO_SPACE => 4
  end.

Definition AllocationSpace_of_int (i : Z) : option AllocationSpace :=
  match i with
  | 0 => Some NEW_SPACE | 1 => Some OLD_SPACE | 2 => Some CODE_SPACE
  | 3 => Some MAP_SPACE | 4 => Some LO_SPACE
  | _ => None
  end.

Inductive AllocationAlignment := kWordAligned | kDoubleAligned | kDoubleUnaligned.
Inductive Executability := NOT_EXECUTABLE | EXECUTABLE.
Inductive FindMementoMode := kForRuntime | kForGC.

(** A tagged value: a small integer or a pointer to a heap object. *)
Inductive Object :=
| Smi (value : Z)
| HeapObj (address : Address).

#[global] Instance Object_eq_dec : EqDecision Object.
Proof. solve_decision. Defined.

Definition IsHeapObject (o : Object) : bool :=
  match o with HeapObj _ => true | Smi _ => false end.

Definition IsSmi (o : Object) : bool :=
  match o with Smi _ => true | HeapObj _ => false end.

(** *** AllocationResult

    One tagged word: a Smi encodes [Retry(space)], anything else is the
    allocated object. *)
Record AllocationResult := { object_ : Object }.

Definition Retry (space : AllocationSpace) : AllocationResult :=
  {| object_ := Smi (AllocationSpace_to_int space) |}.

Definition Success (object : Address) : AllocationResult :=
  {| object_ := HeapObj object |}.

Definition IsRetry (r : AllocationResult) : bool := IsSmi (object_ r).

(** [AllocationResult::To]: [false] (here [None]) on a retry. *)
Definition To (r : AllocationResult) : option Address :=
  match object_ r with
  | Smi _ => None
  | HeapObj a => Some a
  end.

(** What [Smi::ToInt] makes of the bits of a tagged pointer to the heap
    object at an address; the layout of tagged words is fixed in
    [include/v8.h]. *)
Class SmiDecoding := {
  Smi_ToInt_of_pointer : Address -> Z
}.

Definition Smi_ToInt `{SmiDecoding} (o : Object) : Z :=
  match o with
  | Smi value => value
  | HeapObj a => Smi_ToInt_of_pointer a
  end.

(** [AllocationResult::RetrySpace]: with the [DCHECK] compiled out the word
    is decoded as a Smi whatever its tag, and the integer cast to a space;
    [None] stands for an integer that numbers no space. *)
Definition RetrySpace `{SmiDecoding} (r : AllocationResult)
  : option AllocationSpace :=
  AllocationSpace_of_int (Smi_ToInt (object_ r)).


(** *** Memory chunks *)

Inductive MemoryChunkFlag :=
| IN_FROM_SPACE | IN_TO_SPACE | NEW_SPACE_BELOW_AGE_MARK
| PAGE_NEW_NEW_PROMOTION | PAGE_NEW_OLD_PROMOTION.

#[global] Instance MemoryChunkFlag_eq_dec : EqDecision MemoryChunkFlag.
Proof. solve_decision. Defined.

(** The owner of a chunk; [age_mark] is meaningful when the owner is a
    semispace. *)
Record Space := {
  identity : AllocationSpace;
  age_mark : Address
}.

Record MemoryChunk := {
  IsFlagSet : MemoryChunkFlag -> bool;
  owner : Space;
  area_start : Address;
  area_end : Address
}.

(** Modelled from the spec: [MemoryChunk::InNewSpace], [Contains] and
    [ContainsLimit] are declared in [spaces.h].  A page is in the young
    generation when it belongs to either semispace; it contains the
    addresses of its object area. *)
Definition MemoryChunk_InNewSpace (c : MemoryChunk) : bool :=
  IsFlagSet c IN_FROM_SPACE || IsFlagSet c IN_TO_SPACE.

Definition Contains (c : MemoryChunk) (addr : Address) : bool :=
  (area_start c <=? addr) && (addr <? area_end c).

Definition ContainsLimit (c : MemoryChunk) (addr : Address) : bool :=
  (area_start c <=? addr) && (addr <=? area_end c).

Section Addresses.
Context `{Platform}.

(** Pointer arithmetic on a machine word. *)
Definition Address_add (a : Address) (n : Z) : Address :=
  (a + n) mod 2 ^ kBitsPerPointer.

Definition kPageSize : Z := Z.shiftl 1 kPageSizeBits.
Definition kPageAlignmentMask : Z := Z.shiftl 1 kPageSizeBits - 1.

(** Modelled from the spec: [Page::FromAddress] and [Page::OnSamePage]
    are declared in [spaces.h].  A page is a fixed-size region of
    [2 ^ kPageSizeBits] bytes aligned to its size, so the page of an
    address is the address with its low [kPageSizeBits] bits cleared. *)
Definition Page_FromAddress (a : Address) : Address :=
  Z.land a (Z.lnot kPageAlignmentMask).

Definition OnSamePage (address1 address2 : Address) : bool :=
  Page_FromAddress address1 =? Page_FromAddress address2.
End Addresses.

(** *** Events and the heap *)

Definition Resource := Z.

Inductive SpaceCall :=
| NewSpace_AllocateRaw (size_in_bytes : Z) (alignment : AllocationAlignment)
| OldSpace_AllocateRaw (size_in_bytes : Z) (alignment : AllocationAlignment)
| CodeSpace_AllocateRawUnaligned (size_in_bytes : Z)
| MapSpace_AllocateRawUnaligned (size_in_bytes : Z)
| LargeObjectSpace_AllocateRaw (size_in_bytes : Z) (executable : Executability).

Inductive Event :=
| EvSpace (call : SpaceCall)
| EvOnAllocationEvent (object : Address) (size_in_bytes : Z)
| EvOnMoveEvent (target source : Address) (size_in_bytes : Z)
| EvProfilerAllocationEvent (addr : Address) (size : Z)
| EvProfilerObjectMoveEvent (from to : Address) (size : Z)
| EvSharedFunctionInfoMoveEvent (from to : Address)
| EvTimeRequest
| EvPrintAllocationsHash (allocations_count hash : Z)
| EvPrintStack
| EvDispose (resource : Resource).

Inductive RootListIndex :=
| kAllocationMementoMapRootIndex
| kTrueValueRootIndex
| kFalseValueRootIndex.

Record Heap := mkHeap {
  roots_ : RootListIndex -> Object;
  chunks : Address -> MemoryChunk;
  words : Address -> Object;
  new_space_top : Address;
  store_buffer : list Address;
  external_resources : gmap Address Resource;
  allocations_count_ : Z;
  raw_allocations_hash_ : Z;
  is_tracking_allocations : bool;
  is_tracking_object_moves : bool;
  trace : list Event
}.

Definition set_store_buffer (sb : list Address) (h : Heap) : Heap :=
  mkHeap (roots_ h) (chunks h) (words h) (new_space_top h) sb
         (external_resources h) (allocations_count_ h)
         (raw_allocations_hash_ h) (is_tracking_allocations h)
         (is_tracking_object_moves h) (trace h).

Definition set_external_resources (er : gmap Address Resource) (h : Heap) : Heap :=
  mkHeap (roots_ h) (chunks h) (words h) (new_space_top h) (store_buffer h)
         er (allocations_count_ h)
         (raw_allocations_hash_ h) (is_tracking_allocations h)
         (is_tracking_object_moves h) (trace h).

Definition set_allocations_count (n : Z) (h : Heap) : Heap :=
  mkHeap (roots_ h) (chunks h) (words h) (new_space_top h) (store_buffer h)
         (external_resources h) n
         (raw_allocations_hash_ h) (is_tracking_allocations h)
         (is_tracking_object_moves h) (trace h).

Definition set_raw_allocations_hash (x : Z) (h : Heap) : Heap :=
  mkHeap (roots_ h) (chunks h) (words h) (new_space_top h) (store_buffer h)
         (external_resources h) (allocations_count_ h)
         x (is_tracking_allocations h)
         (is_tracking_object_moves h) (trace h).

Definition emit (e : Event) (h : Heap) : Heap :=
  mkHeap (roots_ h) (chunks h) (words h) (new_space_top h) (store_buffer h)
         (external_resources h) (allocations_count_ h)
         (raw_allocations_hash_ h) (is_tracking_allocations h)
         (is_tracking_object_moves h) (trace h ++ [e]).

(** *** Flags and collaborators *)

Class Flags := {
  FLAG_verify_predictable : bool;
  FLAG_dump_allocations_digest_at_alloc : Z;
  FLAG_trace_allocation_stack_interval : Z
}.

(** Functions of other translation units that [heap-inl.h] calls.  They
    are left abstract; what a property needs of them is stated as a
    hypothesis of that property.
    - [space_allocate]: the allocation entry points of the five spaces
      ([spaces-inl.h]);
    - [SizeFromMap]: the size function of the type descriptor;
    - [AllocationMemento_IsValid]: the payload check of a memento;
    - [AddCharacterCore]: the 16-bit-character mixing step of the string
      hasher;
    - [CopyFixedArrayWithMap], [CopyFixedDoubleArrayWithMap]: the copying
      allocators of [heap.cc]. *)
Class Collaborators := {
  space_allocate : SpaceCall -> Heap -> AllocationResult * Heap;
  CodeSpace_AreaSize : Heap -> Z;
  SizeFromMap : Heap -> Object -> Address -> Z;
  AllocationMemento_IsValid : Heap -> Address -> bool;
  IsSharedFunctionInfo : Heap -> Address -> bool;
  AddCharacterCore : Z -> Z -> Z;
  FixedArrayBase_length : Heap -> Address -> Z;
  CopyFixedArrayWithMap : Address -> Object -> Heap -> AllocationResult * Heap;
  CopyFixedDoubleArrayWithMap : Address -> Object -> Heap -> AllocationResult * Heap
}.

(** The space allocators do not call back into the instrumentation of the
    heap: they leave the trace alone. *)
Record CollaboratorsOk `{Collaborators} : Prop := {
  space_allocate_trace :
    forall call h, trace (space_allocate call h).2 = trace h
}.

(** *** Computations that may abort

    [UNREACHABLE()] terminates the process; everything else returns a value
    and the heap it leaves behind. *)

Inductive Outcome (A : Type) :=
| Returns (a : A) (h : Heap)
| Fatal.
Arguments Returns {A} a h.
Arguments Fatal {A}.

Definition M (A : Type) : Type := Heap -> Outcome A.

#[global] Instance M_ret : MRet M := fun A a h => Returns a h.

#[global] Instance M_bind : MBind M := fun A B k m h =>
  match m h with
  | Returns a h' => k a h'
  | Fatal => Fatal
  end.

Definition UNREACHABLE {A : Type} : M A := fun _ => Fatal.

Definition lift (f : Heap -> Heap) : M unit := fun h => Returns tt (f h).

Definition uint32 (x : Z) : Z := x mod 2 ^ 32.
Definition uint16 (x : Z) : Z := x mod 2 ^ 16.

(** *** Lookups that read memory

    What a lookup may ask of the heap, and what each question reads.  A
    lookup is a program over these questions: it has no other way to
    learn anything about the heap, so the log of a run is what it read. *)

Inductive Access :=
| LoadWord (a : Address)
| LoadPageHeader (page : Address)
| LoadRoot (index : RootListIndex)
| LoadSpaceAgeMark (page : Address)
| LoadNewSpaceTop
| CallSizeFromMap (map : Object) (object : Address)
| CallIsValid (memento : Address).

Inductive Query : Type -> Type :=
| QSizeFromMap (map : Object) (object : Address) : Query Z
| QWord (a : Address) : Query Object
| QRoot (index : RootListIndex) : Query Object
| QIsFlagSet (page : Address) (flag : MemoryChunkFlag) : Query bool
| QAgeMark (page : Address) : Query Address
| QContains (page : Address) (addr : Address) : Query bool
| QNewSpaceTop : Query Address
| QIsValid (memento : Address) : Query bool.

Inductive Lookup (A : Type) : Type :=
| Done (a : A)
| Ask {X : Type} (q : Query X) (k : X -> Lookup A).
Arguments Done {A} a.
Arguments Ask {A X} q k.

Notation "'ask' x ← q ; k" := (Ask q (fun x => k))
  (at level 10, x name, q at level 100, k at level 200).

(** The memory a question reads: a tagged word of the managed heap, the
    header of a page (flags, owner, area bounds), the root table of the
    heap, the age mark kept by the space that owns a page, the allocation
    top kept by the young space; or the call of a collaborator. *)
Definition accesses_of {X : Type} (q : Query X) : list Access :=
  match q with
  | QSizeFromMap map object => [CallSizeFromMap map object]
  | QWord a => [LoadWord a]
  | QRoot index => [LoadRoot index]
  | QIsFlagSet page _ => [LoadPageHeader page]
  | QAgeMark page => [LoadPageHeader page; LoadSpaceAgeMark page]
  | QContains page _ => [LoadPageHeader page]
  | QNewSpaceTop => [LoadNewSpaceTop]
  | QIsValid memento => [CallIsValid memento]
  end.

(** ** The operations of [heap-inl.h] *)

Section Model.
Context `{Platform} `{Flags} `{Collaborators}.

Definition allocation_memento_map (h : Heap) : Object :=
  roots_ h kAllocationMementoMapRootIndex.

Definition ToBoolean (h : Heap) (condition : bool) : Object :=
  if condition then roots_ h kTrueValueRootIndex
  else roots_ h kFalseValueRootIndex.

Definition NewSpaceTop (h : Heap) : Address := new_space_top h.

(** *** Generation membership *)

Definition InNewSpace (h : Heap) (object : Object) : bool :=
  match object with
  | Smi _ => false
  | HeapObj a => MemoryChunk_InNewSpace (chunks h (Page_FromAddress a))
  end.

Definition InFromSpace (h : Heap) (object : Object) : bool :=
  match object with
  | Smi _ => false
  | HeapObj a => IsFlagSet (chunks h (Page_FromAddress a)) IN_FROM_SPACE
  end.

Definition InToSpace (h : Heap) (object : Object) : bool :=
  match object with
  | Smi _ => false
  | HeapObj a => IsFlagSet (chunks h (Page_FromAddress a)) IN_TO_SPACE
  end.

Definition ShouldBePromoted (h : Heap) (new_space_age_mark old_address : Address)
  : bool :=
  let page := chunks h (Page_FromAddress old_address) in
  IsFlagSet page NEW_SPACE_BELOW_AGE_MARK &&
  (negb (ContainsLimit page new_space_age_mark) ||
   (old_address <? new_space_age_mark)).

(** *** Write barrier *)

(** Modelled from the spec: [StoreBuffer::InsertEntry] is declared in
    [store-buffer.h].  The store buffer is an append-only ordered sequence
    of slot addresses. *)
Definition StoreBuffer_InsertEntry (slot : Address) (h : Heap) : Heap :=
  set_store_buffer (store_buffer h ++ [slot]) h.

Definition RecordWrite (object : Object) (slot : Address) (value : Object)
           (h : Heap) : Heap :=
  if negb (InNewSpace h value) || negb (IsHeapObject object) || InNewSpace h object
  then h
  else StoreBuffer_InsertEntry slot h.

(** [FixedArray::RawFieldOfElementAt] and [FixedArray::get]: the slot of
    element [index] and the tagged word it holds. *)
Definition RawFieldOfElementAt (array : Address) (index : Z) : Address :=
  Address_add array (FixedArray_kHeaderSize + index * kPointerSize).

Definition FixedArray_get (h : Heap) (array : Address) (index : Z) : Object :=
  words h (RawFieldOfElementAt array index).

(** The body of the [for] loop, started at index [i] with [n] iterations
    left. *)
Fixpoint RecordFixedArrayElements_loop (array : Address) (offset i : Z)
         (n : nat) (h : Heap) : Heap :=
  match n with
  | O => h
  | S n' =>
      let h' :=
        if negb (InNewSpace h (FixedArray_get h array (offset + i))) then h
        else StoreBuffer_InsertEntry (RawFieldOfElementAt array (offset + i)) h in
      RecordFixedArrayElements_loop array offset (i + 1) n' h'
  end.

Definition RecordFixedArrayElements (array : Address) (offset length : Z)
           (h : Heap) : Heap :=
  if InNewSpace h (HeapObj array) then h
  else RecordFixedArrayElements_loop array offset 0 (Z.to_nat length) h.

(** *** Allocation mementos *)

Definition answer (h : Heap) {X : Type} (q : Query X) : X :=
  match q in Query X return X with
  | QSizeFromMap map object => SizeFromMap h map object
  | QWord a => words h a
  | QRoot index => roots_ h index
  | QIsFlagSet page flag => IsFlagSet (chunks h page) flag
  | QAgeMark page => age_mark (owner (chunks h page))
  | QContains page addr => Contains (chunks h page) addr
  | QNewSpaceTop => NewSpaceTop h
  | QIsValid memento => AllocationMemento_IsValid h memento
  end.

(** Running a lookup on a heap: its result and, in program order, what it
    read. *)
Fixpoint run (h : Heap) {A : Type} (p : Lookup A) : A * list Access :=
  match p with
  | Done a => (a, [])
  | Ask q k =>
      let r := run h (k (answer h q)) in
      (r.1, accesses_of q ++ r.2)
  end.

Definition FindAllocationMemento_lookup (mode : FindMementoMode) (map : Object)
           (object : Address) : Lookup (option Address) :=
  let object_address := object in
  ask size ← QSizeFromMap map object;
  let memento_address := Address_add object_address size in
  let last_memento_word_address := Address_add memento_address kPointerSize in
  if negb (OnSamePage object_address last_memento_word_address) then Done None
  else
    let candidate := memento_address in
    ask candidate_map ← QWord candidate;
    ask memento_map ← QRoot kAllocationMementoMapRootIndex;
    if negb (bool_decide (candidate_map = memento_map)) then Done None
    else
      let object_page := Page_FromAddress object_address in
      let after_age_mark_check :=
        let memento_candidate : option Address := Some candidate in
        match mode with
        | kForGC => Done memento_candidate
        | kForRuntime =>
            match memento_candidate with
            | None => Done None
            | Some memento =>
                ask top ← QNewSpaceTop;
                if negb (memento_address =? top) then
                  ask valid ← QIsValid memento;
                  if valid then Done (Some memento) else Done None
                else Done None
            end
        end in
      ask below_age_mark ← QIsFlagSet object_page NEW_SPACE_BELOW_AGE_MARK;
      if below_age_mark then
        ask age_mark ← QAgeMark object_page;
        ask contains_age_mark ← QContains object_page age_mark;
        if negb contains_age_mark then Done None
        else if object_address <? age_mark then Done None
        else after_age_mark_check
      else after_age_mark_check.

(** [Heap::FindAllocationMemento]: the memento found, if any, paired with
    what the lookup read. *)
Definition FindAllocationMemento (mode : FindMementoMode) (map : Object)
           (object : Address) (h : Heap) : option Address * list Access :=
  run h (FindAllocationMemento_lookup mode map object).

(** *** Instrumentation *)

Definition UpdateAllocationsHash (value : Z) (h : Heap) : Heap :=
  let c1 := uint16 value in
  let c2 := uint16 (Z.shiftr value 16) in
  let h := set_raw_allocations_hash
             (AddCharacterCore (raw_allocations_hash_ h) c1) h in
  set_raw_allocations_hash (AddCharacterCore (raw_allocations_hash_ h) c2) h.

Definition UpdateAllocationsHash_object (object : Address) (h : Heap) : Heap :=
  let object_address := object in
  let memory_chunk := Page_FromAddress object_address in
  let allocation_space := identity (owner (chunks h memory_chunk)) in
  let value :=
    Z.lor (uint32 (object_address - memory_chunk))
          (uint32 (Z.shiftl (uint32 (AllocationSpace_to_int allocation_space))
                            kPageSizeBits)) in
  UpdateAllocationsHash value h.

(** Modelled from the spec: [Heap::PrintAllocationsHash] is defined in
    [heap.cc].  It emits a digest snapshot of the rolling hash together
    with the allocation count. *)
Definition PrintAllocationsHash (h : Heap) : Heap :=
  emit (EvPrintAllocationsHash (allocations_count_ h) (raw_allocations_hash_ h)) h.

Definition increment_allocations_count (h : Heap) : Heap :=
  set_allocations_count (uint32 (allocations_count_ h + 1)) h.

Definition OnAllocationEvent (object : Address) (size_in_bytes : Z) (h : Heap)
  : Heap :=
  let h := emit (EvOnAllocationEvent object size_in_bytes) h in
  let h :=
    if is_tracking_allocations h
    then emit (EvProfilerAllocationEvent object size_in_bytes) h
    else h in
  let h :=
    if FLAG_verify_predictable then
      let h := increment_allocations_count h in
      let h := emit EvTimeRequest h in
      let h := UpdateAllocationsHash_object object h in
      let h := UpdateAllocationsHash (uint32 size_in_bytes) h in
      if allocations_count_ h mod uint32 FLAG_dump_allocations_digest_at_alloc =? 0
      then PrintAllocationsHash h
      else h
    else h in
  if 0 <? FLAG_trace_allocation_stack_interval then
    let h :=
      if negb FLAG_verify_predictable then increment_allocations_count h
      else h in
    if allocations_count_ h mod uint32 FLAG_trace_allocation_stack_interval =? 0
    then emit EvPrintStack h
    else h
  else h.

Definition OnMoveEvent (target source : Address) (size_in_bytes : Z) (h : Heap)
  : Heap :=
  let h := emit (EvOnMoveEvent target source size_in_bytes) h in
  let h :=
    if is_tracking_object_moves h
    then emit (EvProfilerObjectMoveEvent source target size_in_bytes) h
    else h in
  let h :=
    if IsSharedFunctionInfo h target
    then emit (EvSharedFunctionInfoMoveEvent source target) h
    else h in
  if FLAG_verify_predictable then
    let h := increment_allocations_count h in
    let h := emit EvTimeRequest h in
    let h := UpdateAllocationsHash_object source h in
    let h := UpdateAllocationsHash_object target h in
    let h := UpdateAllocationsHash (uint32 size_in_bytes) h in
    if allocations_count_ h mod uint32 FLAG_dump_allocations_digest_at_alloc =? 0
    then PrintAllocationsHash h
    else h
  else h.

(** *** Allocation dispatcher *)

(** A call into one of the spaces: recorded, then performed. *)
Definition call (c : SpaceCall) : M AllocationResult := fun h =>
  let r := space_allocate c (emit (EvSpace c) h) in
  Returns r.1 r.2.

(** The part of [Heap::AllocateRaw] below the comment "Here we only
    allocate in the old generation", entered with the current value of
    [space]. *)
Definition AllocateRaw_old_generation (size_in_bytes : Z) (space : AllocationSpace)
           (alignment : AllocationAlignment) (large_object : bool)
  : M AllocationResult :=
  allocation ←
    (if bool_decide (OLD_SPACE = space) then
       if large_object
       then call (LargeObjectSpace_AllocateRaw size_in_bytes NOT_EXECUTABLE)
       else call (OldSpace_AllocateRaw size_in_bytes alignment)
     else if bool_decide (CODE_SPACE = space) then
       fun h =>
         if size_in_bytes <=? CodeSpace_AreaSize h
         then call (CodeSpace_AllocateRawUnaligned size_in_bytes) h
         else call (LargeObjectSpace_AllocateRaw size_in_bytes EXECUTABLE) h
     else if bool_decide (LO_SPACE = space) then
       call (LargeObjectSpace_AllocateRaw size_in_bytes NOT_EXECUTABLE)
     else if bool_decide (MAP_SPACE = space) then
       call (MapSpace_AllocateRawUnaligned size_in_bytes)
     else UNREACHABLE);
  _ ← match To allocation with
      | Some object => lift (OnAllocationEvent object size_in_bytes)
      | None => mret tt
      end;
  mret allocation.

Definition AllocateRaw (size_in_bytes : Z) (space : AllocationSpace)
           (alignment : AllocationAlignment) : M AllocationResult :=
  let large_object := kMaxRegularHeapObjectSize <? size_in_bytes in
  if bool_decide (NEW_SPACE = space) then
    if large_object then
      AllocateRaw_old_generation size_in_bytes LO_SPACE alignment large_object
    else
      allocation ← call (NewSpace_AllocateRaw size_in_bytes alignment);
      _ ← match To allocation with
          | Some object => lift (OnAllocationEvent object size_in_bytes)
          | None => mret tt
          end;
      mret allocation
  else AllocateRaw_old_generation size_in_bytes space alignment large_object.

(** *** Copying fixed arrays *)

Definition CopyFixedArray (src : Address) (h : Heap) : AllocationResult * Heap :=
  if FixedArrayBase_length h src =? 0 then (Success src, h)
  else CopyFixedArrayWithMap src (words h src) h.

Definition CopyFixedDoubleArray (src : Address) (h : Heap)
  : AllocationResult * Heap :=
  if FixedArrayBase_length h src =? 0 then (Success src, h)
  else CopyFixedDoubleArrayWithMap src (words h src) h.

(** *** External strings *)

(** The slot of the string that holds the pointer to its external
    resource; a key absent from [external_resources] is a [NULL] slot. *)
Definition resource_addr (string : Address) : Address :=
  Address_add string ExternalString_kResourceOffset.

Definition FinalizeExternalString (string : Address) (h : Heap) : Heap :=
  match external_resources h !! resource_addr string with
  | Some resource =>
      let h := emit (EvDispose resource) h in
      set_external_resources (delete (resource_addr string) (external_resources h)) h
  | None => h
  end.

End Model.

(** ** Vocabulary of the properties *)

(** Projections of a trace: the calls made into the spaces, the
    invocations of the allocation hook, the digests printed and the
    resources disposed of. *)
Definition space_calls (t : list Event) : list SpaceCall :=
  flat_map (fun e => match e with EvSpace c => [c] | _ => [] end) t.

Definition hook_calls (t : list Event) : list (Address * Z) :=
  flat_map (fun e => match e with
                     | EvOnAllocationEvent o s => [(o, s)]
                     | _ => []
                     end) t.

Definition digests (t : list Event) : list (Z * Z) :=
  flat_map (fun e => match e with
                     | EvPrintAllocationsHash n x => [(n, x)]
                     | _ => []
                     end) t.

Definition disposals (t : list Event) : list Resource :=
  flat_map (fun e => match e with EvDispose r => [r] | _ => [] end) t.

(** An allocation or a move reported to the heap. *)
Inductive HeapEvent :=
| Allocation (object : Address) (size_in_bytes : Z)
| Move (target source : Address) (size_in_bytes : Z).

Section Vocabulary.
Context `{Platform} `{Flags} `{Collaborators}.

(** The stores the barrier has to remember: a young value written into a
    heap object that is not young itself. *)
Definition old_to_young_store (h : Heap) (container value : Object) : bool :=
  InNewSpace h value && IsHeapObject container && negb (InNewSpace h container).

Definition holds_young_pointer (h : Heap) (array : Address) (index : Z) : bool :=
  InNewSpace h (FixedArray_get h array index).


(** Folding one 32-bit value into a rolling hash: the mixing step on the
    low half, then on the high half. *)
Definition fold_uint32 (hash value : Z) : Z :=
  AddCharacterCore (AddCharacterCore hash (uint16 value))
                   (uint16 (Z.shiftr value 16)).

Definition page_offset (object : Address) : Z :=
  object - Page_FromAddress object.

Definition space_id (h : Heap) (object : Address) : AllocationSpace :=
  identity (owner (chunks h (Page_FromAddress object))).

(** The 32-bit value that stands for an object in the rolling hash. *)
Definition hash_input (offset : Z) (space : AllocationSpace) : Z :=
  Z.lor (uint32 offset)
        (uint32 (Z.shiftl (uint32 (AllocationSpace_to_int space)) kPageSizeBits)).

Definition run_event (e : HeapEvent) (h : Heap) : Heap :=
  match e with
  | Allocation object size_in_bytes => OnAllocationEvent object size_in_bytes h
  | Move target source size_in_bytes => OnMoveEvent target source size_in_bytes h
  end.

Definition replay (es : list HeapEvent) (h : Heap) : Heap :=
  fold_left (fun h e => run_event e h) es h.

(** Two objects of two runs that agree on the offset within their page
    and on the space that owns the page. *)
Definition same_position (h1 h2 : Heap) (o1 o2 : Address) : Prop :=
  page_offset o1 = page_offset o2 /\ space_id h1 o1 = space_id h2 o2.

Inductive same_event (h1 h2 : Heap) : HeapEvent -> HeapEvent -> Prop :=
| same_allocation o1 o2 size :
    same_position h1 h2 o1 o2 ->
    same_event h1 h2 (Allocation o1 size) (Allocation o2 size)
| same_move t1 s1 t2 s2 size :
    same_position h1 h2 t1 t2 ->
    same_position h1 h2 s1 s2 ->
    same_event h1 h2 (Move t1 s1 size) (Move t2 s2 size).

(** The candidate memento address of an object: the address right behind
    it. *)
Definition candidate_address (h : Heap) (map : Object) (object : Address)
  : Address :=
  Address_add object (SizeFromMap h map object).


(** The three checks that do not depend on the mode. *)
Definition page_check (h : Heap) (map : Object) (object : Address) : bool :=
  OnSamePage object (Address_add (candidate_address h map object) kPointerSize).

Definition descriptor_check (h : Heap) (map : Object) (object : Address) : bool :=
  bool_decide (words h (candidate_address h map object) = allocation_memento_map h).

Definition object_page (h : Heap) (object : Address) : MemoryChunk :=
  chunks h (Page_FromAddress object).

Definition age_mark_check (h : Heap) (object : Address) : bool :=
  negb (IsFlagSet (object_page h object) NEW_SPACE_BELOW_AGE_MARK) ||
  (Contains (object_page h object) (age_mark (owner (object_page h object))) &&
   (age_mark (owner (object_page h object)) <=? object)).

(** The additional check of the runtime mode. *)
Definition mode_check (mode : FindMementoMode) (h : Heap) (map : Object)
           (object : Address) : bool :=
  match mode with
  | kForGC => true
  | kForRuntime =>
      negb (candidate_address h map object =? NewSpaceTop h) &&
      AllocationMemento_IsValid h (candidate_address h map object)
  end.


(** The 32-bit values an event folds into the rolling hash, in order. *)
Definition event_values (h : Heap) (e : HeapEvent) : list Z :=
  match e with
  | Allocation object size_in_bytes =>
      [hash_input (page_offset object) (space_id h object);
       uint32 size_in_bytes]
  | Move target source size_in_bytes =>
      [hash_input (page_offset source) (space_id h source);
       hash_input (page_offset target) (space_id h target);
       uint32 size_in_bytes]
  end.

(** The digest an event prints once it has brought the counter to [count]
    and the hash to [hash]. *)
Definition digest_at (count hash : Z) : list (Z * Z) :=
  if count mod uint32 FLAG_dump_allocations_digest_at_alloc =? 0
  then [(count, hash)]
  else [].






End Vocabulary.

(** ** A concrete configuration

    A 64-bit target with 512 KB pages, deterministic-hash mode switched on
    with a digest every second event, and simple stand-ins for the
    collaborators.  The properties are evaluated on it. *)

Module Sample.

Definition x64 : Platform := {|
  kPointerSize := 8;
  kPageSizeBits := 19;
  kSpaceTagSize := 3;
  kMaxRegularHeapObjectSize := 507136;
  FixedArray_kHeaderSize := 16;
  ExternalString_kResourceOffset := 24
|}.

Definition predictable : Flags := {|
  FLAG_verify_predictable := true;
  FLAG_dump_allocations_digest_at_alloc := 2;
  FLAG_trace_allocation_stack_interval := 0
|}.

(** The young space bump-allocates below a fixed limit; the large-object
    space always succeeds; the other spaces are exhausted. *)
Definition new_space_limit : Address := 524288 + 4096.

Definition allocate (c : SpaceCall) (h : Heap) : AllocationResult * Heap :=
  match c with
  | NewSpace_AllocateRaw size _ =>
      if new_space_top h + size <=? new_space_limit then
        (Success (new_space_top h),
         mkHeap (roots_ h) (chunks h) (words h) (new_space_top h + size)
                (store_buffer h) (external_resources h) (allocations_count_ h)
                (raw_allocations_hash_ h) (is_tracking_allocations h)
                (is_tracking_object_moves h) (trace h))
      else (Retry NEW_SPACE, h)
  | LargeObjectSpace_AllocateRaw _ _ => (Success 2097152, h)
  | OldSpace_AllocateRaw _ _ => (Retry OLD_SPACE, h)
  | CodeSpace_AllocateRawUnaligned _ => (Retry CODE_SPACE, h)
  | MapSpace_AllocateRawUnaligned _ => (Retry MAP_SPACE, h)
  end.

(** The one-at-a-time mixing step on 32-bit words. *)
Definition mix (running_hash c : Z) : Z :=
  let x := uint32 (running_hash + c) in
  let x := uint32 (x + Z.shiftl x 10) in
  Z.lxor x (Z.shiftr x 6).

Definition collaborators : Collaborators := {|
  space_allocate := allocate;
  CodeSpace_AreaSize := fun _ => 500000;
  SizeFromMap := fun _ _ _ => 32;
  AllocationMemento_IsValid := fun _ _ => true;
  IsSharedFunctionInfo := fun _ _ => false;
  AddCharacterCore := mix;
  FixedArrayBase_length := fun h a =>
    match words h (a + 8) with Smi n => n | HeapObj _ => 0 end;
  CopyFixedArrayWithMap := fun _ _ h => (Retry NEW_SPACE, h);
  CopyFixedDoubleArrayWithMap := fun _ _ h => (Retry NEW_SPACE, h)
|}.

Definition flags_of (fs : list MemoryChunkFlag) (f : MemoryChunkFlag) : bool :=
  existsb (fun g => bool_decide (g = f)) fs.

Definition page (fs : list MemoryChunkFlag) (space : AllocationSpace)
           (mark base : Address) : MemoryChunk := {|
  IsFlagSet := flags_of fs;
  owner := {| identity := space; age_mark := mark |};
  area_start := base + 256;
  area_end := base + 524288
|}.

(** Pages: a to-space page at [0x80000], a to-space page below the age
    mark at [0x100000] (age mark at [0x100400]), old space elsewhere. *)
Definition sample_chunks (base : Address) : MemoryChunk :=
  if base =? 524288 then page [IN_TO_SPACE] NEW_SPACE 0 base
  else if base =? 1048576 then
    page [IN_TO_SPACE; NEW_SPACE_BELOW_AGE_MARK] NEW_SPACE (1048576 + 1024) base
  else page [] OLD_SPACE 0 base.

Definition memento_map : Object := HeapObj 3145736.

(** Memento map words directly behind the 32-byte objects at [0x80100],
    [0x100800] and [0x100200]. *)
Definition sample_words (a : Address) : Object :=
  if a =? 524288 + 256 + 32 then memento_map
  else if a =? 1048576 + 2048 + 32 then memento_map
  else if a =? 1048576 + 512 + 32 then memento_map
  else Smi 0.

Definition heap : Heap := {|
  roots_ := fun i =>
    match i with
    | kAllocationMementoMapRootIndex => memento_map
    | _ => HeapObj 3145744
    end;
  chunks := sample_chunks;
  words := sample_words;
  new_space_top := 524288 + 256 + 32;
  store_buffer := [];
  external_resources := {[ 4194304 + 24 := 77 ]};
  allocations_count_ := 0;
  raw_allocations_hash_ := 0;
  is_tracking_allocations := true;
  is_tracking_object_moves := false;
  trace := []
|}.

(** The same heap laid out one page further up: pages and words are
    shifted by [0x80000]. *)
Definition shifted_heap : Heap := {|
  roots_ := roots_ heap;
  chunks := fun base => sample_chunks (base - 524288);
  words := fun a => sample_words (a - 524288);
  new_space_top := new_space_top heap + 524288;
  store_buffer := [];
  external_resources := ∅;
  allocations_count_ := 0;
  raw_allocations_hash_ := 0;
  is_tracking_allocations := false;
  is_tracking_object_moves := true;
  trace := []
|}.

(** An old-space array of ten elements at [0x300000] whose element 3
    points into the young page; every other word is a Smi. *)
Definition array : Address := 3145728.
Definition young_object : Address := 524288 + 512.

Definition array_heap : Heap := {|
  roots_ := roots_ heap;
  chunks := sample_chunks;
  words := fun a => if a =? array + 16 + 3 * 8 then HeapObj young_object
                    else Smi 0;
  new_space_top := new_space_top heap;
  store_buffer := [];
  external_resources := ∅;
  allocations_count_ := 0;
  raw_allocations_hash_ := 0;
  is_tracking_allocations := false;
  is_tracking_object_moves := false;
  trace := []
|}.

(** Two runs of one allocation and one move, the second one page up. *)
Definition run1 : list HeapEvent :=
  [Allocation (524288 + 256) 32; Move (1048576 + 512) (524288 + 256) 32].

Definition run2 : list HeapEvent :=
  [Allocation (1048576 + 256) 32; Move (1572864 + 512) (1048576 + 256) 32].

End Sample.

(** ** Further operations of [heap-inl.h] *)

(** *** Pretenuring feedback, script ids and internalized strings

    The constants and accessors these functions take from other headers. *)

Class SiteCollaborators := {
  FLAG_allocation_site_pretenuring : bool;
  Map_instance_type : Heap -> Object -> Z;
  AllocationSite_CanTrack : Z -> bool;
  GetAllocationSiteUnchecked : Heap -> Address -> Address
}.

Class SmiLimits := {
  Smi_kMaxValue : Z
}.

(** The string constants and root accessor, and the stores into a freshly
    allocated string: the field setters of [objects-inl.h] and [MemCopy],
    each taking the heap to the heap after the store. *)
Class StringLayout := {
  String_kMaxLength : Z;
  SeqOneByteString_SizeFor : Z -> Z;
  SeqOneByteString_kHeaderSize : Z;
  one_byte_internalized_string_map : Heap -> Object;
  set_map_after_allocation : Address -> Object -> Heap -> Heap;
  String_set_length : Address -> Z -> Heap -> Heap;
  String_set_hash_field : Address -> Z -> Heap -> Heap;
  MemCopy : Address -> list Z -> Z -> Heap -> Heap
}.

(** The two Smi roots that serve as counters. *)
Record SmiRoots := {
  last_script_id : Z;
  next_template_serial_number : Z
}.

(** [Heap::ExternalStringTable]: the registered external strings, by the
    generation they were in when they were added. *)
Record ExternalStringTable := {
  new_space_strings_ : list Address;
  old_space_strings_ : list Address
}.

(** Storing a tagged word. *)
Definition set_word (a : Address) (o : Object) (h : Heap) : Heap :=
  mkHeap (roots_ h) (chunks h) (fun x => if x =? a then o else words h x)
         (new_space_top h) (store_buffer h) (external_resources h)
         (allocations_count_ h) (raw_allocations_hash_ h)
         (is_tracking_allocations h) (is_tracking_object_moves h) (trace h).

(** The events a computation added to the trace. *)
Definition new_events (h h' : Heap) : list Event :=
  drop (length (trace h)) (trace h').

Definition profiler_events (t : list Event) : list Event :=
  List.filter (fun e => match e with
                        | EvProfilerAllocationEvent _ _
                        | EvProfilerObjectMoveEvent _ _ _ => true
                        | _ => false
                        end) t.

Definition time_requests (t : list Event) : list Event :=
  List.filter (fun e => match e with EvTimeRequest => true | _ => false end) t.

Section ModelMore.
Context `{Platform} `{Flags} `{Collaborators}.
Context `{SiteCollaborators} `{SmiLimits} `{StringLayout}.

Definition size_t (x : Z) : Z := x mod 2 ^ kBitsPerPointer.

(** *** Pretenuring feedback

    The increment of the counter of a key in a map of [size_t] counters:
    a missing key counts as zero. *)
Definition UpdateAllocationSite (map : Object) (object : Address)
           (pretenuring_feedback : gmap Address Z) (h : Heap)
  : gmap Address Z :=
  if negb FLAG_allocation_site_pretenuring ||
     negb (AllocationSite_CanTrack (Map_instance_type h map))
  then pretenuring_feedback
  else
    match (FindAllocationMemento kForGC map object h).1 with
    | None => pretenuring_feedback
    | Some memento_candidate =>
        let key := GetAllocationSiteUnchecked h memento_candidate in
        <[key := size_t (default 0 (pretenuring_feedback !! key) + 1)]>
          pretenuring_feedback
    end.

Definition RemoveAllocationSitePretenuringFeedback (site : Address)
           (global_pretenuring_feedback_ : gmap Address Z) : gmap Address Z :=
  delete site global_pretenuring_feedback_.

(** *** External string table *)

Definition AddString (h : Heap) (string : Address) (t : ExternalStringTable)
  : ExternalStringTable :=
  if InNewSpace h (HeapObj string)
  then {| new_space_strings_ := new_space_strings_ t ++ [string];
          old_space_strings_ := old_space_strings_ t |}
  else {| new_space_strings_ := new_space_strings_ t;
          old_space_strings_ := old_space_strings_ t ++ [string] |}.

Definition RegisterExternalString (h : Heap) (string : Address)
           (external_string_table_ : ExternalStringTable) : ExternalStringTable :=
  AddString h string external_string_table_.

(** *** Script ids and template serial numbers *)

Definition NextScriptId (r : SmiRoots) : Z * SmiRoots :=
  let last_id := last_script_id r in
  let last_id := if last_id =? Smi_kMaxValue then 1 else last_id + 1 in
  (last_id, {| last_script_id := last_id;
               next_template_serial_number := next_template_serial_number r |}).

Definition GetNextTemplateSerialNumber (r : SmiRoots) : Z * SmiRoots :=
  let next_serial_number := next_template_serial_number r + 1 in
  (next_serial_number, {| last_script_id := last_script_id r;
                          next_template_serial_number := next_serial_number |}).

(** *** One-byte internalized strings *)

(** A [CHECK]: the process is terminated when the condition fails. *)
Definition CHECK (condition : bool) : M unit := fun h =>
  if condition then Returns tt h else Fatal.

Definition AllocateOneByteInternalizedString (str : list Z) (hash_field : Z)
  : M AllocationResult :=
  let str_length := Z.of_nat (length str) in
  _ ← CHECK (str_length <=? String_kMaxLength);
  map ← (fun h => Returns (one_byte_internalized_string_map h) h);
  let size := SeqOneByteString_SizeFor str_length in
  allocation ← AllocateRaw size OLD_SPACE kWordAligned;
  match To allocation with
  | None => mret allocation
  | Some result =>
      _ ← lift (set_map_after_allocation result map);
      let answer := result in
      _ ← lift (String_set_length answer str_length);
      _ ← lift (String_set_hash_field answer hash_field);
      _ ← lift (MemCopy (Address_add answer SeqOneByteString_kHeaderSize)
                        str str_length);
      mret (Success answer)
  end.

(** *** Vocabulary *)

(** The space and entry point [AllocateRaw] selects for a request. *)
Definition dispatch_target (size : Z) (space : AllocationSpace)
           (alignment : AllocationAlignment) (h : Heap) : SpaceCall :=
  match space with
  | NEW_SPACE =>
      if kMaxRegularHeapObjectSize <? size
      then LargeObjectSpace_AllocateRaw size NOT_EXECUTABLE
      else NewSpace_AllocateRaw size alignment
  | OLD_SPACE =>
      if kMaxRegularHeapObjectSize <? size
      then LargeObjectSpace_AllocateRaw size NOT_EXECUTABLE
      else OldSpace_AllocateRaw size alignment
  | CODE_SPACE =>
      if size <=? CodeSpace_AreaSize h
      then CodeSpace_AllocateRawUnaligned size
      else LargeObjectSpace_AllocateRaw size EXECUTABLE
  | MAP_SPACE => MapSpace_AllocateRawUnaligned size
  | LO_SPACE => LargeObjectSpace_AllocateRaw size NOT_EXECUTABLE
  end.

(** Two heaps that differ at most in the counter, the rolling hash and the
    trace. *)
Definition same_memory (h h' : Heap) : Prop :=
  roots_ h' = roots_ h /\ chunks h' = chunks h /\ words h' = words h /\
  new_space_top h' = new_space_top h /\ store_buffer h' = store_buffer h /\
  external_resources h' = external_resources h /\
  is_tracking_allocations h' = is_tracking_allocations h /\
  is_tracking_object_moves h' = is_tracking_object_moves h.

(** [RecordWrite] applied to the elements of an array, one index after the
    other. *)
Definition RecordWrite_each (array : Address) (indices : list Z) (h : Heap)
  : Heap :=
  fold_left (fun h i => RecordWrite (HeapObj array) (RawFieldOfElementAt array i)
                                    (FixedArray_get h array i) h)
            indices h.

Definition RegisterAll (h : Heap) (strings : list Address)
           (t : ExternalStringTable) : ExternalStringTable :=
  fold_left (fun t s => RegisterExternalString h s t) strings t.

Definition FinalizeAll (strings : list Address) (h : Heap) : Heap :=
  fold_left (fun h s => FinalizeExternalString s h) strings h.

(** The ids handed out by [n] successive calls of [NextScriptId]. *)
Fixpoint NextScriptIds (n : nat) (r : SmiRoots) : list Z * SmiRoots :=
  match n with
  | O => ([], r)
  | S n' =>
      let (id, r') := NextScriptId r in
      let (ids, r'') := NextScriptIds n' r' in
      (id :: ids, r'')
  end.

(** Passing a request to the entry point [c] of a space: the call, then
    the allocation hook on the object if there is one. *)
Definition serve (c : SpaceCall) (size : Z) (h : Heap) : Outcome AllocationResult :=
  Returns (space_allocate c (emit (EvSpace c) h)).1
          (match To (space_allocate c (emit (EvSpace c) h)).1 with
           | Some object =>
               OnAllocationEvent object size
                                 (space_allocate c (emit (EvSpace c) h)).2
           | None => (space_allocate c (emit (EvSpace c) h)).2
           end).

Definition stack_prints (t : list Event) : list Event :=
  List.filter (fun e => match e with EvPrintStack => true | _ => false end) t.




End ModelMore.

Module Sample2.

Definition sites : SiteCollaborators := {|
  FLAG_allocation_site_pretenuring := true;
  Map_instance_type := fun _ _ => 1;
  AllocationSite_CanTrack := fun t => t =? 1;
  GetAllocationSiteUnchecked := fun h memento =>
    match words h (memento + 8) with
    | HeapObj site => site
    | Smi _ => 0
    end
|}.

Definition smi31 : SmiLimits := {| Smi_kMaxValue := 2 ^ 31 - 1 |}.

(** Stand-ins for the stores: length and hash field as tagged words
    behind the map word, one character per word behind the header. *)
Definition strings : StringLayout := {|
  String_kMaxLength := 2 ^ 28 - 16;
  SeqOneByteString_SizeFor := fun n => 8 * ((16 + n + 7) / 8);
  SeqOneByteString_kHeaderSize := 24;
  one_byte_internalized_string_map := fun _ => HeapObj 3145752;
  set_map_after_allocation := fun a map => set_word a map;
  String_set_length := fun a n => set_word (a + 8) (Smi n);
  String_set_hash_field := fun a x => set_word (a + 16) (Smi x);
  MemCopy := fun dst src n h =>
    (fold_left (fun st c => (set_word st.2 (Smi c) st.1, st.2 + 8)) src (h, dst)).1
|}.

Definition smi_decoding : SmiDecoding := {|
  Smi_ToInt_of_pointer := fun a => Z.shiftr (a + 1) 32
|}.

(** Flags with deterministic-hash mode on and a digest every third
    event. *)
Definition every_third : Flags := {|
  FLAG_verify_predictable := true;
  FLAG_dump_allocations_digest_at_alloc := 3;
  FLAG_trace_allocation_stack_interval := 0
|}.

(** Flags with deterministic-hash mode off and a stack sample every
    second allocation. *)
Definition sampling : Flags := {|
  FLAG_verify_predictable := false;
  FLAG_dump_allocations_digest_at_alloc := 0;
  FLAG_trace_allocation_stack_interval := 2
|}.

Definition seven_events : list HeapEvent :=
  Sample.run1 ++ Sample.run1 ++ Sample.run1 ++ [Allocation (524288 + 512) 16].

Definition roots : SmiRoots := {|
  last_script_id := 2 ^ 31 - 3;
  next_template_serial_number := 7
|}.


End Sample2.


(** ** Properties *)

(** Case analysis along a run of the memento lookup. *)
Ltac lookup_cases :=
  unfold FindAllocationMemento, FindAllocationMemento_lookup;
  cbv zeta; cbn [run answer accesses_of fst snd];
  repeat (match goal with
          | |- context [run _ (if negb ?b then _ else _)] => destruct b eqn:?
          | |- context [run _ (if ?b then _ else _)] => destruct b eqn:?
          | |- context [run _ (match ?m with kForRuntime => _ | kForGC => _ end)] =>
              destruct m
          end; cbn [negb run answer accesses_of fst snd]).

Section Properties.
Context `{Platform} `{Flags} `{Collaborators}.

(** *** Proof steps *)

Ltac split_ifs :=
  repeat match goal with
         | |- context [if ?b then _ else _] => destruct b
         end.

Ltac heap_simpl :=
  cbn [negb trace emit set_allocations_count set_raw_allocations_hash
       allocations_count_ raw_allocations_hash_ chunks
       is_tracking_allocations is_tracking_object_moves
       event_values fold_left].

(** Case analysis on the innermost conditions first, so that the fields of
    the heap they guard become visible. *)
Ltac split_innermost_ifs :=
  repeat (match goal with
          | |- context [if ?b then _ else _] =>
              lazymatch b with
              | context [if _ then _ else _] => fail
              | _ => destruct b
              end
          end; heap_simpl).

Lemma RecordFixedArrayElements_loop_store_buffer array offset n :
  forall i h,
    store_buffer (RecordFixedArrayElements_loop array offset i n h) =
    store_buffer h ++
      List.map (RawFieldOfElementAt array)
        (List.filter (holds_young_pointer h array)
                     (seqZ (offset + i) (Z.of_nat n))).
Proof.
  induction n as [|n IH]; intros i h.
  - cbn. symmetry. apply app_nil_r.
  - rewrite Nat2Z.inj_succ, seqZ_cons by lia.
    cbn [RecordFixedArrayElements_loop List.filter List.map].
    rewrite IH. unfold holds_young_pointer at 2.
    replace (Z.succ (offset + i)) with (offset + (i + 1)) by lia.
    replace (Z.pred (Z.succ (Z.of_nat n))) with (Z.of_nat n) by lia.
    destruct (InNewSpace h (FixedArray_get h array (offset + i))); cbn.
    + rewrite <- app_assoc. reflexivity.
    + reflexivity.
Qed.

(** C1: [RecordWrite (container, slot, value)] appends [slot] to the store
    buffer exactly when [value] is in the young generation, [container] is
    a heap object and [container] is not in the young generation; in every
    other case the heap, and with it the store buffer, is unchanged. *)
Theorem RecordWrite_appends_iff_old_to_young
        (h : Heap) (container : Object) (slot : Address) (value : Object) :
  (store_buffer (RecordWrite container slot value h) = store_buffer h ++ [slot]
   <-> InNewSpace h value = true /\ IsHeapObject container = true /\
       InNewSpace h container = false) /\
  RecordWrite container slot value h =
    (if old_to_young_store h container value
     then StoreBuffer_InsertEntry slot h else h) /\
  (old_to_young_store h container value = false ->
   store_buffer (RecordWrite container slot value h) = store_buffer h).
Proof.
  unfold RecordWrite, old_to_young_store.
  assert (Hne : store_buffer h = store_buffer h ++ [slot] -> False).
  { intros E. apply (f_equal (@List.length Address)) in E.
    rewrite length_app in E. cbn in E. lia. }
  destruct (InNewSpace h value), (IsHeapObject container),
    (InNewSpace h container); cbn;
    (split; [split; [intros E | intros (E1 & E2 & E3)] | split; [|intros E]]);
    first [reflexivity | discriminate | tauto | (exfalso; tauto)].
Qed.

(** C8: [RecordFixedArrayElements (array, offset, length)] leaves the store
    buffer unchanged when [array] is in the young generation; otherwise it
    appends the slot address of each element of the range
    [offset, offset + length) that holds a young-generation pointer, in
    index order, one entry per such element and none for the others. *)
Theorem RecordFixedArrayElements_store_buffer
        (h : Heap) (array : Address) (offset length : Z) :
  store_buffer (RecordFixedArrayElements array offset length h) =
    if InNewSpace h (HeapObj array) then store_buffer h
    else store_buffer h ++
         List.map (RawFieldOfElementAt array)
           (List.filter (holds_young_pointer h array) (seqZ offset length)).
Proof.
  unfold RecordFixedArrayElements.
  destruct (InNewSpace h (HeapObj array)); [reflexivity|].
  rewrite RecordFixedArrayElements_loop_store_buffer.
  replace (offset + 0) with offset by lia.
  destruct (Z.le_gt_cases 0 length) as [Hl|Hl].
  - rewrite Z2Nat.id by lia. reflexivity.
  - replace (Z.to_nat length) with 0%nat by lia.
    unfold seqZ. replace (Z.to_nat length) with 0%nat by lia. reflexivity.
Qed.

(** C9: [FinalizeExternalString] is idempotent.  The first call disposes of
    the external resource when the pointer to it is not null and clears
    the pointer; a second call on the same string changes nothing, so over
    both calls the resource is disposed of exactly once. *)
Theorem FinalizeExternalString_idempotent (string : Address) (h : Heap) :
  FinalizeExternalString string (FinalizeExternalString string h) =
    FinalizeExternalString string h /\
  external_resources (FinalizeExternalString string h) !! resource_addr string
    = None /\
  (trace (FinalizeExternalString string h) =
     trace h ++ match external_resources h !! resource_addr string with
                | Some resource => [EvDispose resource]
                | None => []
                end) /\
  (disposals (trace (FinalizeExternalString string
                       (FinalizeExternalString string h))) =
     disposals (trace h) ++
       match external_resources h !! resource_addr string with
       | Some resource => [resource]
       | None => []
       end).
Proof.
  assert (Hnull : external_resources (FinalizeExternalString string h)
                    !! resource_addr string = None).
  { unfold FinalizeExternalString.
    destruct (external_resources h !! resource_addr string) eqn:E; cbn.
    - apply lookup_delete_eq.
    - exact E. }
  assert (Hsame : FinalizeExternalString string (FinalizeExternalString string h)
                  = FinalizeExternalString string h).
  { unfold FinalizeExternalString at 1. rewrite Hnull. reflexivity. }
  rewrite Hsame. split; [reflexivity|]. split; [exact Hnull|].
  unfold FinalizeExternalString.
  destruct (external_resources h !! resource_addr string); cbn.
  - split; [reflexivity|].
    unfold disposals. rewrite flat_map_app. reflexivity.
  - rewrite !app_nil_r. split; reflexivity.
Qed.

(** C10: for a fixed array of length zero, [CopyFixedArray] and
    [CopyFixedDoubleArray] return the source array itself as a successful
    result and leave the heap as it is; only a non-empty array is handed
    to the copying allocator. *)
Theorem CopyFixedArray_empty_returns_source (src : Address) (h : Heap) :
  (FixedArrayBase_length h src = 0 ->
   CopyFixedArray src h = (Success src, h) /\
   CopyFixedDoubleArray src h = (Success src, h) /\
   IsRetry (Success src) = false /\ To (Success src) = Some src) /\
  (FixedArrayBase_length h src <> 0 ->
   CopyFixedArray src h = CopyFixedArrayWithMap src (words h src) h /\
   CopyFixedDoubleArray src h = CopyFixedDoubleArrayWithMap src (words h src) h).
Proof.
  unfold CopyFixedArray, CopyFixedDoubleArray. split; intros E.
  - rewrite E. cbn. repeat split.
  - apply Z.eqb_neq in E. rewrite E. split; reflexivity.
Qed.

(** *** Traces of the dispatcher *)

Lemma space_calls_app t1 t2 :
  space_calls (t1 ++ t2) = space_calls t1 ++ space_calls t2.
Proof. apply flat_map_app. Qed.

Lemma hook_calls_app t1 t2 :
  hook_calls (t1 ++ t2) = hook_calls t1 ++ hook_calls t2.
Proof. apply flat_map_app. Qed.

Lemma digests_app t1 t2 : digests (t1 ++ t2) = digests t1 ++ digests t2.
Proof. apply flat_map_app. Qed.

(** The hook records its own invocation first; whatever it reports
    afterwards is neither a call into a space nor another invocation. *)
Lemma OnAllocationEvent_trace object size h :
  exists t,
    trace (OnAllocationEvent object size h) =
      trace h ++ EvOnAllocationEvent object size :: t /\
    space_calls t = [] /\ hook_calls t = [].
Proof.
  unfold OnAllocationEvent, PrintAllocationsHash, UpdateAllocationsHash_object,
    UpdateAllocationsHash, increment_allocations_count.
  cbv zeta. split_ifs; cbn [trace emit set_allocations_count
    set_raw_allocations_hash allocations_count_ raw_allocations_hash_];
    rewrite <- ?app_assoc; cbn [app];
    (eexists; split; [reflexivity | split; reflexivity]).
Qed.

Lemma call_returns (POk : CollaboratorsOk) c h :
  exists r h',
    call c h = Returns r h' /\
    r = (space_allocate c (emit (EvSpace c) h)).1 /\
    trace h' = trace h ++ [EvSpace c].
Proof.
  unfold call. eexists _, _. split; [reflexivity|]. split; [reflexivity|].
  rewrite space_allocate_trace by assumption. reflexivity.
Qed.

(** What the common tail of both allocation paths does with the result of
    a space. *)
Lemma finish_allocation (POk : CollaboratorsOk) c size h :
  exists r h' t,
    (allocation ← call c;
     _ ← match To allocation with
         | Some object => lift (OnAllocationEvent object size)
         | None => mret tt
         end;
     mret allocation) h = Returns r h' /\
    r = (space_allocate c (emit (EvSpace c) h)).1 /\
    trace h' = trace h ++ EvSpace c :: t /\
    space_calls t = [] /\
    hook_calls t = match To r with
                   | Some object => [(object, size)]
                   | None => []
                   end.
Proof.
  destruct (call_returns POk c h) as (r & h1 & Hc & Hr & Ht).
  unfold mbind, M_bind. rewrite Hc.
  destruct (To r) as [object|] eqn:E.
  - destruct (OnAllocationEvent_trace object size h1) as (t & Et & Es & Eh).
    exists r, (OnAllocationEvent object size h1), (EvOnAllocationEvent object size :: t).
    cbn. rewrite E. repeat split; try assumption.
    + rewrite Et, Ht, <- app_assoc. reflexivity.
    + unfold hook_calls in *. cbn. rewrite Eh. reflexivity.
  - exists r, h1, []. cbn. rewrite E. repeat split; assumption.
Qed.

(** The space an old-generation request is served from. *)
Lemma AllocateRaw_old_generation_returns (POk : CollaboratorsOk)
      size space alignment large_object h :
  space <> NEW_SPACE ->
  exists c r h' t,
    AllocateRaw_old_generation size space alignment large_object h
      = Returns r h' /\
    c = match space with
        | OLD_SPACE =>
            if large_object then LargeObjectSpace_AllocateRaw size NOT_EXECUTABLE
            else OldSpace_AllocateRaw size alignment
        | CODE_SPACE =>
            if size <=? CodeSpace_AreaSize h
            then CodeSpace_AllocateRawUnaligned size
            else LargeObjectSpace_AllocateRaw size EXECUTABLE
        | MAP_SPACE => MapSpace_AllocateRawUnaligned size
        | _ => LargeObjectSpace_AllocateRaw size NOT_EXECUTABLE
        end /\
    r = (space_allocate c (emit (EvSpace c) h)).1 /\
    trace h' = trace h ++ EvSpace c :: t /\
    space_calls t = [] /\
    hook_calls t = match To r with
                   | Some object => [(object, size)]
                   | None => []
                   end.
Proof.
  intros Hspace. unfold AllocateRaw_old_generation.
  destruct space; try congruence; cbn [bool_decide decide_rel];
    repeat (rewrite bool_decide_eq_false_2 by discriminate);
    repeat (rewrite bool_decide_eq_true_2 by reflexivity).
  - destruct large_object;
      match goal with
      | |- context [call ?c] =>
          destruct (finish_allocation POk c size h) as (r & h' & t & E & Er & Et & Es & Eh);
          exists c, r, h', t; repeat split; assumption
      end.
  - unfold mbind, M_bind. cbn beta.
    destruct (size <=? CodeSpace_AreaSize h);
      match goal with
      | |- context [call ?c] =>
          destruct (finish_allocation POk c size h) as (r & h' & t & E & Er & Et & Es & Eh);
          unfold mbind, M_bind in E;
          exists c, r, h', t; repeat split; assumption
      end.
  - match goal with
    | |- context [call ?c] =>
        destruct (finish_allocation POk c size h) as (r & h' & t & E & Er & Et & Es & Eh);
        exists c, r, h', t; repeat split; assumption
    end.
  - match goal with
    | |- context [call ?c] =>
        destruct (finish_allocation POk c size h) as (r & h' & t & E & Er & Et & Es & Eh);
        exists c, r, h', t; repeat split; assumption
    end.
Qed.

(** C2: a young-generation request larger than the large-object threshold
    is served by the large-object space, with a non-executable
    allocation: it behaves as the same request addressed to [LO_SPACE],
    and the only call it makes into a space is
    [LargeObjectSpace::AllocateRaw (size, NOT_EXECUTABLE)]; the young
    space is not called. *)
Theorem AllocateRaw_large_young_request_goes_to_large_object_space
        (POk : CollaboratorsOk) (size : Z) (alignment : AllocationAlignment)
        (h : Heap) :
  kMaxRegularHeapObjectSize < size ->
  AllocateRaw size NEW_SPACE alignment h = AllocateRaw size LO_SPACE alignment h /\
  exists r h',
    AllocateRaw size NEW_SPACE alignment h = Returns r h' /\
    r = (space_allocate (LargeObjectSpace_AllocateRaw size NOT_EXECUTABLE)
           (emit (EvSpace (LargeObjectSpace_AllocateRaw size NOT_EXECUTABLE)) h)).1 /\
    space_calls (trace h') =
      space_calls (trace h) ++ [LargeObjectSpace_AllocateRaw size NOT_EXECUTABLE] /\
    ~ In (NewSpace_AllocateRaw size alignment)
         (drop (length (space_calls (trace h))) (space_calls (trace h'))).
Proof.
  intros Hlarge. apply Z.ltb_lt in Hlarge.
  unfold AllocateRaw. rewrite Hlarge.
  rewrite bool_decide_eq_true_2 by reflexivity.
  rewrite (bool_decide_eq_false_2 (NEW_SPACE = LO_SPACE)) by discriminate.
  split; [reflexivity|].
  destruct (AllocateRaw_old_generation_returns POk size LO_SPACE alignment true h)
    as (c & r & h' & t & E & Ec & Er & Et & Es & Eh); [discriminate|].
  subst c. exists r, h'. split; [exact E|]. split; [exact Er|].
  assert (Hcalls : space_calls (trace h') =
            space_calls (trace h) ++
              [LargeObjectSpace_AllocateRaw size NOT_EXECUTABLE]).
  { rewrite Et, space_calls_app.
    change (space_calls (EvSpace ?c :: t)) with (c :: space_calls t).
    rewrite Es. reflexivity. }
  split; [exact Hcalls|].
  rewrite Hcalls, drop_app_length. cbn. intros [Habs|[]]. discriminate.
Qed.

(** C3: every invocation of [AllocateRaw] returns, and it invokes the
    allocation hook after the call into the space and before returning:
    exactly once, on the resulting object and the requested size, when the
    result is a success, and not at all when the result is a retry. *)
Theorem AllocateRaw_fires_hook_once_iff_success
        (POk : CollaboratorsOk) (size : Z) (space : AllocationSpace)
        (alignment : AllocationAlignment) (h : Heap) :
  exists r h' c t,
    AllocateRaw size space alignment h = Returns r h' /\
    trace h' = trace h ++ EvSpace c :: t /\
    (IsRetry r = false ->
     exists object,
       r = Success object /\
       hook_calls t = [(object, size)] /\
       hook_calls (trace h') = hook_calls (trace h) ++ [(object, size)]) /\
    (IsRetry r = true ->
     hook_calls t = [] /\ hook_calls (trace h') = hook_calls (trace h)).
Proof.
  assert (Hfinish : forall r h' c t,
    trace h' = trace h ++ EvSpace c :: t ->
    hook_calls t = match To r with
                   | Some object => [(object, size)]
                   | None => []
                   end ->
    (IsRetry r = false ->
     exists object,
       r = Success object /\
       hook_calls t = [(object, size)] /\
       hook_calls (trace h') = hook_calls (trace h) ++ [(object, size)]) /\
    (IsRetry r = true ->
     hook_calls t = [] /\ hook_calls (trace h') = hook_calls (trace h))).
  { intros r h' c t Et Eh.
    assert (Ehook : hook_calls (trace h') = hook_calls (trace h) ++ hook_calls t).
    { rewrite Et, hook_calls_app. reflexivity. }
    destruct r as [[v|a]]; unfold IsRetry, To in *; cbn in *; split; intros R;
      try discriminate.
    - rewrite Ehook, Eh, app_nil_r. split; reflexivity.
    - exists a. rewrite Ehook, Eh. repeat split. }
  unfold AllocateRaw.
  destruct (decide (NEW_SPACE = space)) as [<-|Hne].
  - rewrite bool_decide_eq_true_2 by reflexivity.
    destruct (kMaxRegularHeapObjectSize <? size).
    + destruct (AllocateRaw_old_generation_returns POk size LO_SPACE alignment true h)
        as (c & r & h' & t & E & _ & _ & Et & _ & Eh); [discriminate|].
      exists r, h', c, t. split; [exact E|]. split; [exact Et|]. eauto.
    + destruct (finish_allocation POk (NewSpace_AllocateRaw size alignment) size h)
        as (r & h' & t & E & _ & Et & _ & Eh).
      exists r, h', (NewSpace_AllocateRaw size alignment), t.
      split; [exact E|]. split; [exact Et|]. eauto.
  - rewrite bool_decide_eq_false_2 by assumption.
    destruct (AllocateRaw_old_generation_returns POk size space alignment
                (kMaxRegularHeapObjectSize <? size) h)
      as (c & r & h' & t & E & _ & _ & Et & _ & Eh); [congruence|].
    exists r, h', c, t. split; [exact E|]. split; [exact Et|]. eauto.
Qed.

(** *** Page geometry *)

Lemma kPageSize_pow2 : 0 <= kPageSizeBits -> kPageSize = 2 ^ kPageSizeBits.
Proof.
  intros Hb. unfold kPageSize. rewrite Z.shiftl_mul_pow2 by assumption. lia.
Qed.

Lemma kPageSize_pos : 0 <= kPageSizeBits -> 0 < kPageSize.
Proof. intros Hb. rewrite kPageSize_pow2 by assumption. lia. Qed.

(** Clearing the low [kPageSizeBits] bits rounds down to a multiple of the
    page size. *)
Lemma Page_FromAddress_mod a :
  0 <= kPageSizeBits -> Page_FromAddress a = a - a mod kPageSize.
Proof.
  intros Hb. unfold Page_FromAddress, kPageAlignmentMask.
  rewrite <- Z.ldiff_land.
  change (Z.shiftl 1 kPageSizeBits - 1) with (Z.pred (Z.shiftl 1 kPageSizeBits)).
  fold (Z.ones kPageSizeBits).
  rewrite Z.ldiff_ones_r by assumption.
  rewrite Z.shiftr_div_pow2, Z.shiftl_mul_pow2 by assumption.
  rewrite kPageSize_pow2 by assumption.
  pose proof (Z.div_mod a (2 ^ kPageSizeBits)). lia.
Qed.

Lemma Page_FromAddress_bounds a :
  0 <= kPageSizeBits ->
  Page_FromAddress a <= a < Page_FromAddress a + kPageSize.
Proof.
  intros Hb. rewrite Page_FromAddress_mod by assumption.
  pose proof (Z.mod_pos_bound a kPageSize (kPageSize_pos Hb)). lia.
Qed.

Lemma Page_FromAddress_monotone a b :
  0 <= kPageSizeBits -> a <= b -> Page_FromAddress a <= Page_FromAddress b.
Proof.
  intros Hb Hab. rewrite !Page_FromAddress_mod by assumption.
  pose proof (kPageSize_pos Hb) as HP.
  pose proof (Z.div_le_mono a b kPageSize HP Hab) as Hdiv.
  rewrite (Z.mod_eq a), (Z.mod_eq b) by lia. nia.
Qed.




Lemma kPageSize_bounds (POk : PlatformOk) : 16 <= kPageSize <= 2 ^ 29.
Proof.
  destruct POk as [_ Hlo [Htag0 Htag] Hfit].
  assert (3 <= kSpaceTagSize).
  { destruct (Z_lt_le_dec kSpaceTagSize 3) as [Hlt|]; [|assumption].
    assert (2 ^ kSpaceTagSize <= 2 ^ 2) by (apply Z.pow_le_mono_r; lia).
    lia. }
  rewrite kPageSize_pow2 by lia. split.
  - change 16 with (2 ^ 4). apply Z.pow_le_mono_r; lia.
  - apply Z.pow_le_mono_r; lia.
Qed.



(** *** The memento lookup, check by check *)

Lemma FindAllocationMemento_result mode map object h :
  (FindAllocationMemento mode map object h).1 =
    if page_check h map object && descriptor_check h map object &&
       age_mark_check h object && mode_check mode h map object
    then Some (candidate_address h map object)
    else None.
Proof.
  unfold page_check, descriptor_check, age_mark_check, mode_check, object_page,
    candidate_address, allocation_memento_map.
  rewrite (Z.leb_antisym object).
  lookup_cases;
    repeat match goal with
           | E : _ = _ |- _ => rewrite E
           end; cbn [negb andb orb]; reflexivity.
Qed.




(** C5: in runtime mode [FindAllocationMemento] returns [nullptr] whenever
    the candidate address is the allocation top of the young generation,
    and a memento it returns has passed the validity check of its payload;
    in GC mode the candidate is returned as soon as the page, descriptor
    and age-mark checks pass, top or not. *)
Theorem FindAllocationMemento_mode_distinction
        (map : Object) (object : Address) (h : Heap) :
  (candidate_address h map object = NewSpaceTop h ->
   (FindAllocationMemento kForRuntime map object h).1 = None) /\
  (forall memento,
     (FindAllocationMemento kForRuntime map object h).1 = Some memento ->
     memento = candidate_address h map object /\
     memento <> NewSpaceTop h /\
     AllocationMemento_IsValid h memento = true) /\
  ((FindAllocationMemento kForGC map object h).1 =
     Some (candidate_address h map object)
   <-> page_check h map object = true /\
       descriptor_check h map object = true /\
       age_mark_check h object = true).
Proof.
  rewrite !FindAllocationMemento_result. unfold mode_check.
  split; [|split].
  - intros ->. rewrite Z.eqb_refl. cbn.
    rewrite andb_false_r. reflexivity.
  - intros memento.
    destruct (page_check _ _ _), (descriptor_check _ _ _), (age_mark_check _ _);
      cbn; try discriminate.
    destruct (_ =? NewSpaceTop h) eqn:Etop; cbn; [discriminate|].
    destruct (AllocationMemento_IsValid _ _) eqn:Evalid; [|discriminate].
    intros [= <-]. apply Z.eqb_neq in Etop. repeat split; assumption.
  - destruct (page_check _ _ _), (descriptor_check _ _ _), (age_mark_check _ _);
      cbn; split; try discriminate; try tauto;
      intros (? & ? & ?); discriminate.
Qed.

(** C6: for an object on a page flagged "below age mark",
    [FindAllocationMemento] returns a memento only if the age mark of the
    owning semispace lies on that page and is not above the address of the
    object; when the age mark is off the page, or the object lies strictly
    below it, the result is [nullptr]. *)
Theorem FindAllocationMemento_below_age_mark
        (mode : FindMementoMode) (map : Object) (object : Address) (h : Heap) :
  IsFlagSet (object_page h object) NEW_SPACE_BELOW_AGE_MARK = true ->
  (forall memento,
     (FindAllocationMemento mode map object h).1 = Some memento ->
     Contains (object_page h object) (age_mark (owner (object_page h object)))
       = true /\
     age_mark (owner (object_page h object)) <= object) /\
  (Contains (object_page h object) (age_mark (owner (object_page h object)))
     = false \/
   object < age_mark (owner (object_page h object)) ->
   (FindAllocationMemento mode map object h).1 = None).
Proof.
  intros Hflag. rewrite FindAllocationMemento_result.
  unfold age_mark_check. rewrite Hflag. cbn [negb orb].
  split.
  - intros memento.
    destruct (page_check _ _ _), (descriptor_check _ _ _); cbn; try discriminate.
    destruct (Contains _ _); cbn; [|discriminate].
    destruct (_ <=? object) eqn:Eam; cbn; [|discriminate].
    intros _. split; [reflexivity|]. apply Z.leb_le. exact Eam.
  - intros [-> | Hlt].
    + cbn. rewrite andb_false_r. reflexivity.
    + apply Z.leb_gt in Hlt. rewrite Hlt.
      rewrite andb_false_r, andb_false_r. reflexivity.
Qed.

(** *** The rolling hash *)

Lemma UpdateAllocationsHash_folds value h :
  UpdateAllocationsHash value h =
    set_raw_allocations_hash (fold_uint32 (raw_allocations_hash_ h) value) h.
Proof. reflexivity. Qed.

Lemma UpdateAllocationsHash_object_folds object h :
  UpdateAllocationsHash_object object h =
    set_raw_allocations_hash
      (fold_uint32 (raw_allocations_hash_ h)
                   (hash_input (page_offset object) (space_id h object))) h.
Proof. reflexivity. Qed.

(** With deterministic-hash mode on, what one event does to the hash, the
    counter, the pages and the digests printed. *)
Lemma run_event_summary (e : HeapEvent) (h : Heap) :
  FLAG_verify_predictable = true ->
  raw_allocations_hash_ (run_event e h) =
    fold_left fold_uint32 (event_values h e) (raw_allocations_hash_ h) /\
  allocations_count_ (run_event e h) = uint32 (allocations_count_ h + 1) /\
  chunks (run_event e h) = chunks h /\
  digests (trace (run_event e h)) =
    digests (trace h) ++
      digest_at (uint32 (allocations_count_ h + 1))
                (fold_left fold_uint32 (event_values h e)
                           (raw_allocations_hash_ h)).
Proof.
  intros Hflag. unfold digest_at.
  destruct e as [object size|target source size];
    unfold run_event, OnAllocationEvent, OnMoveEvent, PrintAllocationsHash,
      increment_allocations_count;
    rewrite Hflag; cbv zeta;
    rewrite ?UpdateAllocationsHash_folds, ?UpdateAllocationsHash_object_folds;
    heap_simpl; split_innermost_ifs;
    rewrite ?digests_app; cbn [digests flat_map app];
    rewrite ?app_nil_r; repeat split; reflexivity.
Qed.

Lemma event_values_chunks (h h' : Heap) (e : HeapEvent) :
  chunks h = chunks h' -> event_values h e = event_values h' e.
Proof.
  intros E. destruct e; unfold event_values, space_id; rewrite E; reflexivity.
Qed.

Lemma same_event_values (h1 h2 : Heap) (e1 e2 : HeapEvent) :
  same_event h1 h2 e1 e2 -> event_values h1 e1 = event_values h2 e2.
Proof.
  intros [o1 o2 size [Eo Es] | t1 s1 t2 s2 size [Eto Ets] [Eso Ess]];
    unfold event_values; congruence.
Qed.

Lemma replay_related (h1 h2 : Heap) (es1 es2 : list HeapEvent) :
  FLAG_verify_predictable = true ->
  Forall2 (same_event h1 h2) es1 es2 ->
  forall g1 g2,
    chunks g1 = chunks h1 -> chunks g2 = chunks h2 ->
    raw_allocations_hash_ g1 = raw_allocations_hash_ g2 ->
    allocations_count_ g1 = allocations_count_ g2 ->
    raw_allocations_hash_ (replay es1 g1) = raw_allocations_hash_ (replay es2 g2) /\
    allocations_count_ (replay es1 g1) = allocations_count_ (replay es2 g2) /\
    exists d,
      digests (trace (replay es1 g1)) = digests (trace g1) ++ d /\
      digests (trace (replay es2 g2)) = digests (trace g2) ++ d.
Proof.
  intros Hflag HF. induction HF as [|e1 e2 es1 es2 He HF IH];
    intros g1 g2 C1 C2 Eh Ec.
  - cbn. repeat split; try assumption. exists []. rewrite !app_nil_r. split; reflexivity.
  - destruct (run_event_summary e1 g1 Hflag) as (R1 & N1 & K1 & D1).
    destruct (run_event_summary e2 g2 Hflag) as (R2 & N2 & K2 & D2).
    assert (Ev : event_values g1 e1 = event_values g2 e2).
    { rewrite (event_values_chunks g1 h1), (event_values_chunks g2 h2)
        by assumption.
      apply same_event_values. exact He. }
    rewrite Ev, Eh, Ec in *.
    destruct (IH (run_event e1 g1) (run_event e2 g2)) as (Rf & Nf & d & Df1 & Df2);
      try congruence.
    cbn [replay fold_left] in *. fold (replay es1 (run_event e1 g1)).
    fold (replay es2 (run_event e2 g2)).
    split; [exact Rf|]. split; [exact Nf|].
    eexists. rewrite Df1, Df2, D1, D2, <- !app_assoc. split; reflexivity.
Qed.

(** C7: with deterministic-hash mode on, two runs that start from the same
    hash and counter and report event sequences that agree on the kind
    and size of every event and on the page offset and space of every
    object produce the same rolling hash and the same digests.  Every
    event folds its 32-bit values in a fixed order (object, then size;
    for a move source, target, then size), each value by the mixing step
    on its low half and then on its high half. *)
Theorem deterministic_hash_replay
        (h1 h2 : Heap) (es1 es2 : list HeapEvent) :
  FLAG_verify_predictable = true ->
  raw_allocations_hash_ h1 = raw_allocations_hash_ h2 ->
  allocations_count_ h1 = allocations_count_ h2 ->
  Forall2 (same_event h1 h2) es1 es2 ->
  (raw_allocations_hash_ (replay es1 h1) = raw_allocations_hash_ (replay es2 h2) /\
   exists d,
     digests (trace (replay es1 h1)) = digests (trace h1) ++ d /\
     digests (trace (replay es2 h2)) = digests (trace h2) ++ d) /\
  (forall e h,
     raw_allocations_hash_ (run_event e h) =
       fold_left fold_uint32 (event_values h e) (raw_allocations_hash_ h)) /\
  (forall hash value,
     fold_uint32 hash value =
       AddCharacterCore (AddCharacterCore hash (value mod 2 ^ 16))
                        (Z.shiftr value 16 mod 2 ^ 16)).
Proof.
  intros Hflag Eh Ec HF.
  destruct (replay_related h1 h2 es1 es2 Hflag HF h1 h2) as (R & _ & D);
    try assumption; try reflexivity.
  split; [split; assumption|]. split.
  - intros e h. apply (run_event_summary e h Hflag).
  - reflexivity.
Qed.

End Properties.

(** ** Further properties *)

Section FurtherProperties.
Context `{Platform} `{Flags} `{Collaborators}.
Context `{SiteCollaborators} `{SmiLimits} `{StringLayout} `{SmiDecoding}.

Ltac case_ifs :=
  repeat match goal with
         | |- context [if ?b then _ else _] => destruct b
         end.

Ltac hook_simpl :=
  cbn [negb trace emit set_allocations_count set_raw_allocations_hash
       allocations_count_ raw_allocations_hash_ chunks
       is_tracking_allocations is_tracking_object_moves].

Ltac case_innermost_ifs :=
  repeat (match goal with
          | |- context [if ?b then _ else _] =>
              lazymatch b with
              | context [if _ then _ else _] => fail
              | _ => destruct b
              end
          end; hook_simpl).

(** *** Allocation results and the dispatcher *)


(** X2: [AllocateRaw] never reaches [UNREACHABLE]: for each of the five
    spaces it passes the request to exactly the entry point of the
    dispatch table, returns the result of that space unchanged and runs
    the allocation hook on a success. *)
Theorem AllocateRaw_dispatch
        (size : Z) (space : AllocationSpace) (alignment : AllocationAlignment)
        (h : Heap) :
  AllocateRaw size space alignment h =
    serve (dispatch_target size space alignment h) size h.
Proof.
  unfold AllocateRaw, AllocateRaw_old_generation, dispatch_target, serve.
  destruct space; cbn [bool_decide decide_rel];
    repeat (rewrite bool_decide_eq_false_2 by discriminate);
    repeat (rewrite bool_decide_eq_true_2 by reflexivity);
    repeat (rewrite (bool_decide_eq_false_2 (NEW_SPACE = LO_SPACE)) by discriminate);
    repeat (rewrite (bool_decide_eq_true_2 (LO_SPACE = LO_SPACE)) by reflexivity);
    unfold mbind, M_bind, mret, M_ret, call, lift; cbn beta;
    try destruct (kMaxRegularHeapObjectSize <? size);
    try destruct (size <=? CodeSpace_AreaSize h);
    cbn [bool_decide decide_rel];
    repeat (rewrite bool_decide_eq_false_2 by discriminate);
    repeat (rewrite bool_decide_eq_true_2 by reflexivity);
    cbn beta iota;
    match goal with
    | |- context [To ?r] => destruct (To r); reflexivity
    end.
Qed.

(** The hooks change the counter, the rolling hash and the trace, and
    nothing else. *)
Lemma OnAllocationEvent_same_memory object size h :
  same_memory h (OnAllocationEvent object size h).
Proof.
  unfold same_memory, OnAllocationEvent, PrintAllocationsHash,
    UpdateAllocationsHash_object, UpdateAllocationsHash,
    increment_allocations_count.
  cbv zeta. case_ifs; repeat split; reflexivity.
Qed.

Lemma OnMoveEvent_same_memory target source size h :
  same_memory h (OnMoveEvent target source size h).
Proof.
  unfold same_memory, OnMoveEvent, PrintAllocationsHash,
    UpdateAllocationsHash_object, UpdateAllocationsHash,
    increment_allocations_count.
  cbv zeta. case_ifs; repeat split; reflexivity.
Qed.

(** X4: with space allocators that leave the trace alone, one call of
    [AllocateRaw] makes exactly one call into a space.  That call is an
    executable large-object allocation only for a code request that
    exceeds the area of a code page, and a young-space allocation only
    for a young request within the regular object size. *)
Theorem AllocateRaw_calls_one_space
        (POk : CollaboratorsOk) (size : Z) (space : AllocationSpace)
        (alignment : AllocationAlignment) (h : Heap) :
  exists r h',
    AllocateRaw size space alignment h = Returns r h' /\
    space_calls (new_events h h') = [dispatch_target size space alignment h] /\
    (In (LargeObjectSpace_AllocateRaw size EXECUTABLE)
        (space_calls (new_events h h'))
     <-> space = CODE_SPACE /\ CodeSpace_AreaSize h < size) /\
    (In (NewSpace_AllocateRaw size alignment) (space_calls (new_events h h'))
     <-> space = NEW_SPACE /\ size <= kMaxRegularHeapObjectSize).
Proof.
  rewrite AllocateRaw_dispatch. unfold serve.
  eexists _, _. split; [reflexivity|].
  set (c := dispatch_target size space alignment h).
  match goal with
  | |- space_calls (new_events h ?h') = _ /\ _ =>
      assert (Hcalls : space_calls (new_events h h') = [c])
  end.
  { assert (Hs : trace (space_allocate c (emit (EvSpace c) h)).2
                 = trace h ++ [EvSpace c])
      by (rewrite space_allocate_trace by assumption; reflexivity).
    unfold new_events. destruct (To _) as [object|].
    - destruct (OnAllocationEvent_trace object size
                  (space_allocate c (emit (EvSpace c) h)).2) as (t & Et & Es & _).
      rewrite Et, Hs, <- app_assoc, drop_app_length.
      cbn [app]. change (space_calls (EvSpace c :: ?l)) with (c :: space_calls l).
      change (space_calls (EvOnAllocationEvent ?o ?s :: ?l)) with (space_calls l).
      rewrite Es. reflexivity.
    - rewrite Hs, drop_app_length. reflexivity. }
  split; [exact Hcalls|]. rewrite Hcalls. subst c. unfold dispatch_target.
  destruct space;
    try destruct (Z.ltb_spec kMaxRegularHeapObjectSize size);
    try destruct (Z.leb_spec size (CodeSpace_AreaSize h));
    cbn [In]; split; split;
    first [ intros [E|[]]; first [discriminate E | split; [reflexivity|lia]]
          | intros [E1 E2]; first [discriminate E1 | left; reflexivity | lia] ].
Qed.

(** *** The instrumentation hooks *)

(** X5: an allocation event advances the allocation counter by one
    (modulo [2 ^ 32]) when deterministic-hash mode or stack sampling is on,
    once even when both are, and not at all otherwise; a move event
    advances it only in deterministic-hash mode.  An allocation event
    prints a stack exactly when sampling is on and the counter has
    reached a multiple of the sampling interval; a move event never
    does. *)
Theorem hooks_count_and_sample
        (object target source : Address) (size : Z) (h : Heap) :
  allocations_count_ (OnAllocationEvent object size h) =
    (if FLAG_verify_predictable || (0 <? FLAG_trace_allocation_stack_interval)
     then uint32 (allocations_count_ h + 1)
     else allocations_count_ h) /\
  allocations_count_ (OnMoveEvent target source size h) =
    (if FLAG_verify_predictable then uint32 (allocations_count_ h + 1)
     else allocations_count_ h) /\
  stack_prints (trace (OnAllocationEvent object size h)) =
    stack_prints (trace h) ++
      (if (0 <? FLAG_trace_allocation_stack_interval) &&
          (uint32 (allocations_count_ h + 1)
             mod uint32 FLAG_trace_allocation_stack_interval =? 0)
       then [EvPrintStack] else []) /\
  stack_prints (trace (OnMoveEvent target source size h)) = stack_prints (trace h).
Proof.
  unfold OnAllocationEvent, OnMoveEvent, PrintAllocationsHash,
    increment_allocations_count.
  cbv zeta.
  rewrite ?UpdateAllocationsHash_folds, ?UpdateAllocationsHash_object_folds.
  destruct FLAG_verify_predictable, (0 <? FLAG_trace_allocation_stack_interval);
    cbn [orb andb negb]; hook_simpl; case_innermost_ifs;
    unfold stack_prints; rewrite ?List.filter_app; cbn [List.filter app];
    rewrite ?app_nil_r; repeat split; reflexivity.
Qed.

(** X6: with deterministic-hash mode off, neither hook changes the
    rolling hash, prints a digest or requests the time. *)
Theorem hooks_keep_hash_when_not_predictable
        (object target source : Address) (size : Z) (h : Heap) :
  FLAG_verify_predictable = false ->
  raw_allocations_hash_ (OnAllocationEvent object size h) = raw_allocations_hash_ h /\
  raw_allocations_hash_ (OnMoveEvent target source size h) = raw_allocations_hash_ h /\
  digests (trace (OnAllocationEvent object size h)) = digests (trace h) /\
  digests (trace (OnMoveEvent target source size h)) = digests (trace h) /\
  time_requests (trace (OnAllocationEvent object size h)) = time_requests (trace h) /\
  time_requests (trace (OnMoveEvent target source size h)) = time_requests (trace h).
Proof.
  intros Hflag.
  unfold OnAllocationEvent, OnMoveEvent, increment_allocations_count.
  rewrite Hflag. cbv zeta. hook_simpl. case_innermost_ifs;
    unfold time_requests; rewrite ?digests_app, ?List.filter_app;
    cbn [digests flat_map List.filter app];
    rewrite ?app_nil_r; repeat split; reflexivity.
Qed.

(** X7: the profiler hears of an allocation exactly when it tracks
    allocations, and of a move exactly when it tracks moves, once, with
    the source address first and the target second. *)
Theorem hooks_notify_profiler
        (object target source : Address) (size : Z) (h : Heap) :
  profiler_events (trace (OnAllocationEvent object size h)) =
    profiler_events (trace h) ++
      (if is_tracking_allocations h
       then [EvProfilerAllocationEvent object size] else []) /\
  profiler_events (trace (OnMoveEvent target source size h)) =
    profiler_events (trace h) ++
      (if is_tracking_object_moves h
       then [EvProfilerObjectMoveEvent source target size] else []).
Proof.
  unfold OnAllocationEvent, OnMoveEvent, PrintAllocationsHash,
    increment_allocations_count.
  cbv zeta.
  rewrite ?UpdateAllocationsHash_folds, ?UpdateAllocationsHash_object_folds.
  hook_simpl.
  destruct (is_tracking_allocations h), (is_tracking_object_moves h);
    hook_simpl; case_innermost_ifs;
    unfold profiler_events; rewrite ?List.filter_app; cbn [List.filter app];
    rewrite ?app_nil_r; split; reflexivity.
Qed.


(** X8: in deterministic-hash mode with a digest interval [k], a run of
    events that does not overflow the 32-bit counter advances the counter
    by one per event and prints a digest exactly at the counts that are
    multiples of [k]. *)
Theorem digests_every_kth_event (es : list HeapEvent) (h : Heap) :
  FLAG_verify_predictable = true ->
  0 < FLAG_dump_allocations_digest_at_alloc < 2 ^ 32 ->
  0 <= allocations_count_ h ->
  allocations_count_ h + Z.of_nat (length es) < 2 ^ 32 ->
  allocations_count_ (replay es h) = allocations_count_ h + Z.of_nat (length es) /\
  List.map fst (digests (trace (replay es h))) =
    List.map fst (digests (trace h)) ++
      List.filter (fun n => n mod FLAG_dump_allocations_digest_at_alloc =? 0)
                  (seqZ (allocations_count_ h + 1) (Z.of_nat (length es))).
Proof.
  intros Hflag Hk. revert h.
  induction es as [|e es IH]; intros h Hc Hn.
  - cbn. split; [lia|]. rewrite app_nil_r. reflexivity.
  - cbn [length] in Hn. rewrite Nat2Z.inj_succ in Hn.
    destruct (run_event_summary e h Hflag) as (_ & N & _ & D).
    assert (Hu : uint32 (allocations_count_ h + 1) = allocations_count_ h + 1)
      by (apply Z.mod_small; lia).
    rewrite Hu in N, D.
    cbn [replay fold_left]. fold (replay es (run_event e h)).
    destruct (IH (run_event e h)) as (Nf & Df); [lia|lia|].
    rewrite N in Nf, Df. split.
    + rewrite Nf. cbn [length]. lia.
    + rewrite Df, D, map_app, <- app_assoc. f_equal.
      cbn [length]. rewrite Nat2Z.inj_succ.
      rewrite (seqZ_cons (allocations_count_ h + 1)) by lia.
      replace (Z.pred (Z.succ (Z.of_nat (length es)))) with (Z.of_nat (length es))
        by lia.
      replace (Z.succ (allocations_count_ h + 1))
        with (allocations_count_ h + 1 + 1) by lia.
      cbn [List.filter]. unfold digest_at, uint32 at 1.
      rewrite (Z.mod_small FLAG_dump_allocations_digest_at_alloc) by lia.
      destruct (_ =? 0); reflexivity.
Qed.

(** X9: the 32-bit value that stands for an object in the rolling hash is
    the page offset plus the space number shifted above the page bits; it
    fits in 32 bits, and offset and space can both be read back from it:
    objects at different offsets or in different spaces are folded as
    different values. *)
Theorem hash_input_encodes_offset_and_space (POk : PlatformOk) :
  (forall (a : Address) (s : AllocationSpace),
     hash_input (page_offset a) s
       = page_offset a + AllocationSpace_to_int s * kPageSize /\
     0 <= hash_input (page_offset a) s < 2 ^ 32) /\
  (forall (a1 a2 : Address) (s1 s2 : AllocationSpace),
     hash_input (page_offset a1) s1 = hash_input (page_offset a2) s2 ->
     page_offset a1 = page_offset a2 /\ s1 = s2).
Proof.
  pose proof (kPageSize_bounds POk) as HP.
  pose proof POk as [_ Hlo [Htag0 Htag] Hfit].
  assert (Hb : 0 <= kPageSizeBits) by lia.
  assert (Hoff : forall a, 0 <= page_offset a < kPageSize).
  { intros a. unfold page_offset.
    pose proof (Page_FromAddress_bounds a Hb). lia. }
  assert (Hspace : forall s, 0 <= AllocationSpace_to_int s <= 4)
    by (intros []; cbn; lia).
  assert (Hfits : 5 * kPageSize <= 2 ^ 32).
  { rewrite kPageSize_pow2 by assumption.
    assert (2 ^ kSpaceTagSize * 2 ^ kPageSizeBits <= 2 ^ 32).
    { rewrite <- Z.pow_add_r by lia. apply Z.pow_le_mono_r; lia. }
    nia. }
  assert (Hval : forall a s,
             hash_input (page_offset a) s
               = page_offset a + AllocationSpace_to_int s * kPageSize).
  { intros a s. specialize (Hoff a). specialize (Hspace s).
    unfold hash_input, uint32.
    rewrite (Z.mod_small (page_offset a)) by lia.
    rewrite (Z.mod_small (AllocationSpace_to_int s)) by lia.
    rewrite Z.shiftl_mul_pow2, <- kPageSize_pow2 by assumption.
    rewrite (Z.mod_small (_ * kPageSize)) by nia.
    rewrite <- Z.add_lor_land.
    replace (Z.land (page_offset a) (AllocationSpace_to_int s * kPageSize))
      with 0; [lia|].
    symmetry. apply Z.bits_inj'. intros n Hn.
    rewrite Z.land_spec, Z.bits_0.
    destruct (Z_lt_le_dec n kPageSizeBits) as [Hlt|Hge].
    - rewrite kPageSize_pow2, Z.mul_pow2_bits_low by assumption.
      apply andb_false_r.
    - rewrite <- (Z.mod_small (page_offset a) (2 ^ kPageSizeBits))
        by (rewrite <- kPageSize_pow2 by assumption; lia).
      rewrite Z.mod_pow2_bits_high by lia. reflexivity. }
  split.
  - intros a s. split; [apply Hval|]. rewrite Hval.
    specialize (Hoff a). specialize (Hspace s). nia.
  - intros a1 a2 s1 s2. rewrite !Hval.
    pose proof (Hoff a1). pose proof (Hoff a2).
    destruct s1, s2; cbn [AllocationSpace_to_int]; intros E;
      first [split; [lia | reflexivity] | exfalso; lia].
Qed.


(** *** The bulk write barrier *)

Lemma RecordWrite_into_old array slot value h :
  InNewSpace h (HeapObj array) = false ->
  RecordWrite (HeapObj array) slot value h =
    if negb (InNewSpace h value) then h else StoreBuffer_InsertEntry slot h.
Proof.
  intros Hold. unfold RecordWrite. rewrite Hold. cbn [IsHeapObject negb].
  rewrite !orb_false_r. reflexivity.
Qed.

Lemma RecordWrite_into_young array slot value h :
  InNewSpace h (HeapObj array) = true ->
  RecordWrite (HeapObj array) slot value h = h.
Proof.
  intros Hyoung. unfold RecordWrite. rewrite Hyoung, orb_true_r. reflexivity.
Qed.

Lemma RecordWrite_each_young array indices h :
  InNewSpace h (HeapObj array) = true -> RecordWrite_each array indices h = h.
Proof.
  intros Hyoung. induction indices as [|i indices IH]; [reflexivity|].
  unfold RecordWrite_each in *. cbn [fold_left].
  rewrite RecordWrite_into_young by assumption. exact IH.
Qed.

Lemma RecordFixedArrayElements_loop_as_writes array offset n :
  forall i h,
    InNewSpace h (HeapObj array) = false ->
    RecordFixedArrayElements_loop array offset i n h =
      RecordWrite_each array (seqZ (offset + i) (Z.of_nat n)) h.
Proof.
  induction n as [|n IH]; intros i h Hold; [reflexivity|].
  rewrite Nat2Z.inj_succ, seqZ_cons by lia.
  replace (Z.pred (Z.succ (Z.of_nat n))) with (Z.of_nat n) by lia.
  replace (Z.succ (offset + i)) with (offset + (i + 1)) by lia.
  unfold RecordWrite_each. cbn [RecordFixedArrayElements_loop fold_left].
  rewrite RecordWrite_into_old by assumption.
  fold (RecordWrite_each array (seqZ (offset + (i + 1)) (Z.of_nat n))).
  apply IH.
  destruct (negb _); [assumption|exact Hold].
Qed.

Lemma RecordFixedArrayElements_as_writes array offset length h :
  RecordFixedArrayElements array offset length h =
    RecordWrite_each array (seqZ offset length) h.
Proof.
  unfold RecordFixedArrayElements.
  destruct (InNewSpace h (HeapObj array)) eqn:Hgen.
  - symmetry. apply RecordWrite_each_young. exact Hgen.
  - rewrite RecordFixedArrayElements_loop_as_writes by assumption.
    replace (offset + 0) with offset by lia.
    unfold seqZ. rewrite Nat2Z.id. reflexivity.
Qed.

(** X10: the bulk barrier is the element-wise barrier: recording the
    elements of a range leaves the heap exactly as [RecordWrite] applied
    to each element of the range in index order does, for young and old
    arrays alike; a range of non-positive length changes nothing. *)
Theorem RecordFixedArrayElements_is_RecordWrite_on_each_element
        (array : Address) (offset length : Z) (h : Heap) :
  RecordFixedArrayElements array offset length h =
    fold_left (fun h i => RecordWrite (HeapObj array) (RawFieldOfElementAt array i)
                                      (FixedArray_get h array i) h)
              (seqZ offset length) h /\
  (length <= 0 -> RecordFixedArrayElements array offset length h = h).
Proof.
  split; [apply RecordFixedArrayElements_as_writes|].
  intros Hlen. rewrite RecordFixedArrayElements_as_writes.
  unfold seqZ. replace (Z.to_nat length) with 0%nat by lia. reflexivity.
Qed.

(** X11: recording a range in two consecutive parts is recording it in
    one go. *)
Theorem RecordFixedArrayElements_splits
        (array : Address) (offset n m : Z) (h : Heap) :
  0 <= n -> 0 <= m ->
  RecordFixedArrayElements array offset (n + m) h =
    RecordFixedArrayElements array (offset + n) m
      (RecordFixedArrayElements array offset n h).
Proof.
  intros Hn Hm. rewrite !RecordFixedArrayElements_as_writes.
  rewrite seqZ_app by assumption.
  unfold RecordWrite_each. apply fold_left_app.
Qed.

(** *** Mementos *)

(** X12: the runtime lookup is the GC lookup followed by the runtime
    checks.  It reads what the GC lookup reads and then, only when the
    page, descriptor and age-mark checks have passed, the allocation top
    and, unless the candidate is the top, calls the validity check of the
    candidate.  A memento found at runtime is found by the GC as well, and
    one found by the GC is found at runtime exactly when it is not at the
    allocation top and valid. *)
Theorem runtime_lookup_restricts_gc_lookup
        (map : Object) (object : Address) (h : Heap) :
  (FindAllocationMemento kForRuntime map object h).2 =
    (FindAllocationMemento kForGC map object h).2 ++
      (if page_check h map object && descriptor_check h map object &&
          age_mark_check h object
       then LoadNewSpaceTop ::
            (if candidate_address h map object =? NewSpaceTop h then []
             else [CallIsValid (candidate_address h map object)])
       else []) /\
  (forall memento,
     (FindAllocationMemento kForRuntime map object h).1 = Some memento ->
     (FindAllocationMemento kForGC map object h).1 = Some memento) /\
  (forall memento,
     (FindAllocationMemento kForGC map object h).1 = Some memento ->
     ((FindAllocationMemento kForRuntime map object h).1 = Some memento
      <-> memento <> NewSpaceTop h /\ AllocationMemento_IsValid h memento = true)).
Proof.
  split.
  { unfold page_check, descriptor_check, age_mark_check, object_page,
      candidate_address, allocation_memento_map.
    rewrite (Z.leb_antisym object).
    lookup_cases;
      repeat match goal with
             | E : _ = _ |- _ => rewrite E
             end;
      cbn [negb andb orb app]; rewrite <- ?app_assoc; cbn [app];
      rewrite ?app_nil_r; reflexivity. }
  rewrite !FindAllocationMemento_result.
  unfold mode_check.
  destruct (page_check _ _ _ && descriptor_check _ _ _ && age_mark_check _ _);
    cbn [andb]; split; intros memento; try discriminate.
  - destruct (_ && _); [tauto|discriminate].
  - intros [= <-]. destruct (Z.eqb_spec (candidate_address h map object) (NewSpaceTop h)) as [Etop|Etop];
      cbn [negb andb].
    + split; [discriminate|]. intros [Hne _]. contradiction.
    + destruct (AllocationMemento_IsValid _ _); split;
        [tauto | tauto | discriminate | intros [_ E]; discriminate].
Qed.

(** X13: an object that [ShouldBePromoted] selects, judged by the age mark
    of the semispace that owns its page, has no memento in either
    mode. *)
Theorem promoted_objects_have_no_memento
        (mode : FindMementoMode) (map : Object) (object : Address) (h : Heap) :
  ShouldBePromoted h (age_mark (owner (object_page h object))) object = true ->
  (FindAllocationMemento mode map object h).1 = None.
Proof.
  unfold ShouldBePromoted. fold (object_page h object).
  intros Hp. rewrite FindAllocationMemento_result.
  replace (age_mark_check h object) with false.
  { rewrite andb_false_r. reflexivity. }
  unfold age_mark_check.
  apply andb_prop in Hp as [-> Hp]. cbn [negb orb].
  unfold Contains, ContainsLimit in *.
  destruct (Z.leb_spec (area_start (object_page h object))
                       (age_mark (owner (object_page h object))));
    destruct (Z.ltb_spec (age_mark (owner (object_page h object)))
                         (area_end (object_page h object)));
    destruct (Z.leb_spec (age_mark (owner (object_page h object)))
                         (area_end (object_page h object)));
    destruct (Z.leb_spec (age_mark (owner (object_page h object))) object);
    destruct (Z.ltb_spec object (age_mark (owner (object_page h object))));
    cbn in *; try reflexivity; try discriminate; lia.
Qed.


(** *** Pretenuring feedback *)

(** X14: [UpdateAllocationSite] changes the feedback map only when
    pretenuring is enabled, the instance type can be tracked and the GC
    lookup finds a memento; it then raises the counter of the site of that
    memento by one, counting from zero for a site that has no entry yet,
    and leaves every other entry alone.  Removing that site afterwards
    gives the same map as removing it before. *)
Theorem UpdateAllocationSite_counts_one_site
        (map : Object) (object : Address) (feedback : gmap Address Z) (h : Heap) :
  UpdateAllocationSite map object feedback h =
    (if FLAG_allocation_site_pretenuring &&
        AllocationSite_CanTrack (Map_instance_type h map) &&
        (page_check h map object && descriptor_check h map object &&
         age_mark_check h object)
     then <[GetAllocationSiteUnchecked h (candidate_address h map object) :=
              size_t (default 0 (feedback !! GetAllocationSiteUnchecked h
                                    (candidate_address h map object)) + 1)]>
            feedback
     else feedback) /\
  (forall site,
     site <> GetAllocationSiteUnchecked h (candidate_address h map object) ->
     UpdateAllocationSite map object feedback h !! site = feedback !! site) /\
  RemoveAllocationSitePretenuringFeedback
    (GetAllocationSiteUnchecked h (candidate_address h map object))
    (UpdateAllocationSite map object feedback h) =
  RemoveAllocationSitePretenuringFeedback
    (GetAllocationSiteUnchecked h (candidate_address h map object)) feedback.
Proof.
  assert (E : UpdateAllocationSite map object feedback h =
    (if FLAG_allocation_site_pretenuring &&
        AllocationSite_CanTrack (Map_instance_type h map) &&
        (page_check h map object && descriptor_check h map object &&
         age_mark_check h object)
     then <[GetAllocationSiteUnchecked h (candidate_address h map object) :=
              size_t (default 0 (feedback !! GetAllocationSiteUnchecked h
                                    (candidate_address h map object)) + 1)]>
            feedback
     else feedback)).
  { unfold UpdateAllocationSite. rewrite FindAllocationMemento_result.
    unfold mode_check. rewrite andb_true_r.
    destruct FLAG_allocation_site_pretenuring,
      (AllocationSite_CanTrack _); cbn [negb orb andb]; try reflexivity.
    destruct (_ && _); reflexivity. }
  rewrite E. unfold RemoveAllocationSitePretenuringFeedback.
  destruct (_ && _).
  - split; [reflexivity|]. split.
    + intros site Hne. apply lookup_insert_ne. congruence.
    + apply delete_insert_eq.
  - repeat split.
Qed.

(** *** External strings *)

(** X15: registering external strings partitions them by generation:
    the young ones are appended, in order, to the list of young strings
    and the others to the list of old strings, so every registered string
    lands in exactly one of the two lists. *)
Theorem RegisterExternalString_partitions
        (h : Heap) (strings : list Address) (t : ExternalStringTable) :
  new_space_strings_ (RegisterAll h strings t) =
    new_space_strings_ t ++
      List.filter (fun s => InNewSpace h (HeapObj s)) strings /\
  old_space_strings_ (RegisterAll h strings t) =
    old_space_strings_ t ++
      List.filter (fun s => negb (InNewSpace h (HeapObj s))) strings /\
  (length (new_space_strings_ (RegisterAll h strings t)) +
   length (old_space_strings_ (RegisterAll h strings t)) =
   length (new_space_strings_ t) + length (old_space_strings_ t) +
   length strings)%nat.
Proof.
  revert t. induction strings as [|s strings IH]; intros t.
  - cbn. rewrite !app_nil_r. repeat split. lia.
  - unfold RegisterAll in *. cbn [fold_left List.filter].
    destruct (IH (RegisterExternalString h s t)) as (En & Eo & El).
    rewrite En, Eo in *. clear En Eo.
    unfold RegisterExternalString, AddString in *.
    destruct (InNewSpace h (HeapObj s)); cbn [negb] in *;
      cbn [new_space_strings_ old_space_strings_] in *;
      rewrite <- ?app_assoc; cbn [app];
      repeat split; try reflexivity;
      rewrite ?length_app in *; cbn [length] in *; lia.
Qed.

Lemma FinalizeExternalString_other string a h :
  resource_addr string <> a ->
  external_resources (FinalizeExternalString string h) !! a
    = external_resources h !! a.
Proof.
  intros Hne. unfold FinalizeExternalString.
  destruct (external_resources h !! resource_addr string); cbn; [|reflexivity].
  apply lookup_delete_ne. exact Hne.
Qed.

Lemma FinalizeExternalString_null string h :
  external_resources h !! resource_addr string = None ->
  FinalizeExternalString string h = h.
Proof. intros E. unfold FinalizeExternalString. rewrite E. reflexivity. Qed.

Lemma FinalizeExternalString_clears string h :
  external_resources (FinalizeExternalString string h) !! resource_addr string
    = None.
Proof.
  unfold FinalizeExternalString.
  destruct (external_resources h !! resource_addr string) eqn:E; cbn.
  - apply lookup_delete_eq.
  - exact E.
Qed.

Lemma FinalizeExternalString_keeps_null string a h :
  external_resources h !! a = None ->
  external_resources (FinalizeExternalString string h) !! a = None.
Proof.
  intros E. destruct (decide (resource_addr string = a)) as [<-|Hne].
  - apply FinalizeExternalString_clears.
  - rewrite FinalizeExternalString_other by assumption. exact E.
Qed.

Lemma FinalizeAll_keeps_null strings a :
  forall h, external_resources h !! a = None ->
            external_resources (FinalizeAll strings h) !! a = None.
Proof.
  induction strings as [|s strings IH]; intros h E; [exact E|].
  unfold FinalizeAll in *. cbn [fold_left]. apply IH.
  apply FinalizeExternalString_keeps_null. exact E.
Qed.

Lemma FinalizeAll_null strings :
  forall h,
    (forall s, In s strings -> external_resources h !! resource_addr s = None) ->
    FinalizeAll strings h = h.
Proof.
  induction strings as [|s strings IH]; intros h Hnull; [reflexivity|].
  unfold FinalizeAll in *. cbn [fold_left].
  rewrite FinalizeExternalString_null by (apply Hnull; left; reflexivity).
  apply IH. intros s' Hs'. apply Hnull. right. exact Hs'.
Qed.

(** X16: finalizing a batch of external strings, repeats included, leaves
    the resource pointer of every string of the batch null and the
    pointers of all other slots as they were; finalizing the same batch
    again changes nothing, so no resource is disposed of twice. *)
Theorem FinalizeAll_clears_batch_once (strings : list Address) (h : Heap) :
  (forall s, In s strings ->
     external_resources (FinalizeAll strings h) !! resource_addr s = None) /\
  (forall a, (forall s, In s strings -> resource_addr s <> a) ->
     external_resources (FinalizeAll strings h) !! a = external_resources h !! a) /\
  FinalizeAll strings (FinalizeAll strings h) = FinalizeAll strings h.
Proof.
  assert (Hclear : forall l g s, In s l ->
            external_resources (FinalizeAll l g) !! resource_addr s = None).
  { induction l as [|x l IH]; intros g s []; unfold FinalizeAll in *;
      cbn [fold_left].
    - subst x. apply (FinalizeAll_keeps_null l).
      apply FinalizeExternalString_clears.
    - apply IH. assumption. }
  split; [intros s; apply Hclear|]. split.
  - revert h. induction strings as [|x l IH]; intros h a Hother; [reflexivity|].
    unfold FinalizeAll in *. cbn [fold_left].
    rewrite IH by (intros s Hs; apply Hother; right; exact Hs).
    apply FinalizeExternalString_other. apply Hother. left. reflexivity.
  - apply FinalizeAll_null. intros s. apply Hclear.
Qed.

(** *** Script ids *)

(** X17: script ids stay positive Smis.  Starting from a stored id between
    0 and [Smi::kMaxValue], any number of calls of [NextScriptId] hands
    out ids between 1 and [Smi::kMaxValue] only, keeps the stored id in
    that range and does not touch the template serial number; as long as
    the maximum is not reached the ids are consecutive, and after the
    maximum the next id is 1. *)
Theorem NextScriptId_stays_in_range (n : nat) (r : SmiRoots) :
  1 <= Smi_kMaxValue ->
  0 <= last_script_id r <= Smi_kMaxValue ->
  Forall (fun id => 1 <= id <= Smi_kMaxValue) (NextScriptIds n r).1 /\
  0 <= last_script_id (NextScriptIds n r).2 <= Smi_kMaxValue /\
  next_template_serial_number (NextScriptIds n r).2
    = next_template_serial_number r /\
  (last_script_id r + Z.of_nat n <= Smi_kMaxValue ->
   (NextScriptIds n r).1 = seqZ (last_script_id r + 1) (Z.of_nat n)) /\
  (last_script_id r = Smi_kMaxValue -> (NextScriptId r).1 = 1).
Proof.
  intros Hmax. revert r. induction n as [|n IH]; intros r Hr.
  - cbn. repeat split; try lia; try constructor.
    unfold NextScriptId. cbn. intros ->. rewrite Z.eqb_refl. reflexivity.
  - cbn [NextScriptIds].
    destruct (NextScriptId r) as [id r'] eqn:E.
    assert (Hid : id = (if last_script_id r =? Smi_kMaxValue then 1
                        else last_script_id r + 1) /\
                  last_script_id r' = id /\
                  next_template_serial_number r'
                    = next_template_serial_number r).
    { unfold NextScriptId in E. injection E as <- <-. repeat split. }
    destruct Hid as (Eid & Elast & Eser).
    assert (Hrange : 1 <= id <= Smi_kMaxValue).
    { rewrite Eid. destruct (Z.eqb_spec (last_script_id r) Smi_kMaxValue); lia. }
    destruct (IH r') as (Hall & Hlast & Hser & Hseq & _); [lia|].
    destruct (NextScriptIds n r') as [ids r''] eqn:E'.
    cbn [fst snd] in *. repeat split; try lia; try congruence.
    + constructor; assumption.
    + intros Hroom. rewrite Nat2Z.inj_succ in Hroom.
      rewrite Nat2Z.inj_succ, seqZ_cons by lia.
      replace (Z.pred (Z.succ (Z.of_nat n))) with (Z.of_nat n) by lia.
      assert (id = last_script_id r + 1).
      { rewrite Eid. destruct (Z.eqb_spec (last_script_id r) Smi_kMaxValue); lia. }
      rewrite Hseq by lia. f_equal; [assumption|]. f_equal. lia.
    + intros Emax. rewrite Eid, Emax, Z.eqb_refl. reflexivity.
Qed.


(** *** One-byte internalized strings *)


(** *** Frames *)

Lemma set_store_buffer_same h : set_store_buffer (store_buffer h) h = h.
Proof. destruct h. reflexivity. Qed.

Lemma RecordFixedArrayElements_loop_frame array offset n :
  forall i h,
    RecordFixedArrayElements_loop array offset i n h =
      set_store_buffer
        (store_buffer (RecordFixedArrayElements_loop array offset i n h)) h /\
    (length (store_buffer (RecordFixedArrayElements_loop array offset i n h))
     <= length (store_buffer h) + n)%nat.
Proof.
  induction n as [|n IH]; intros i h.
  - cbn. split; [symmetry; apply set_store_buffer_same|lia].
  - cbn [RecordFixedArrayElements_loop].
    destruct (negb _).
    + destruct (IH (i + 1) h) as (E & L). split; [exact E|lia].
    + destruct (IH (i + 1)
                  (StoreBuffer_InsertEntry
                     (RawFieldOfElementAt array (offset + i)) h)) as (E & L).
      split.
      * rewrite E at 1. reflexivity.
      * unfold StoreBuffer_InsertEntry in L at 2.
        cbn [store_buffer set_store_buffer] in L.
        rewrite length_app in L. cbn [List.length] in L. lia.
Qed.

(** X19: the write barrier only ever appends to the store buffer.
    [RecordWrite] and [RecordFixedArrayElements] leave every other
    component of the heap as it was, so generation membership is not
    affected, and the bulk barrier adds at most one entry per element of
    the range. *)
Theorem write_barrier_only_appends
        (container value : Object) (slot array : Address) (offset length : Z)
        (h : Heap) :
  RecordWrite container slot value h =
    set_store_buffer (store_buffer (RecordWrite container slot value h)) h /\
  RecordFixedArrayElements array offset length h =
    set_store_buffer
      (store_buffer (RecordFixedArrayElements array offset length h)) h /\
  (List.length (store_buffer (RecordFixedArrayElements array offset length h))
   <= List.length (store_buffer h) + Z.to_nat length)%nat /\
  (forall o,
     InNewSpace (RecordWrite container slot value h) o = InNewSpace h o /\
     InNewSpace (RecordFixedArrayElements array offset length h) o
       = InNewSpace h o).
Proof.
  assert (E1 : RecordWrite container slot value h =
               set_store_buffer
                 (store_buffer (RecordWrite container slot value h)) h).
  { unfold RecordWrite. destruct (_ || _); [|reflexivity].
    symmetry. apply set_store_buffer_same. }
  assert (E2 : RecordFixedArrayElements array offset length h =
               set_store_buffer
                 (store_buffer (RecordFixedArrayElements array offset length h)) h
               /\ (List.length (store_buffer
                                  (RecordFixedArrayElements array offset length h))
                   <= List.length (store_buffer h) + Z.to_nat length)%nat).
  { unfold RecordFixedArrayElements. destruct (InNewSpace h (HeapObj array)).
    - split; [symmetry; apply set_store_buffer_same|lia].
    - apply RecordFixedArrayElements_loop_frame. }
  destruct E2 as (E2 & L2).
  split; [exact E1|]. split; [exact E2|]. split; [exact L2|].
  intros o. rewrite E1, E2. destruct o; split; reflexivity.
Qed.

(** X20: [UpdateAllocationsHash] feeds the mixing step the low and the
    high sixteen bits of the 32-bit value: two characters below [2 ^ 16]
    that together make up exactly that value, so no bit of it is
    dropped. *)
Theorem UpdateAllocationsHash_halves (value : Z) (h : Heap) :
  exists lo hi,
    0 <= lo < 2 ^ 16 /\ 0 <= hi < 2 ^ 16 /\
    uint32 value = lo + hi * 2 ^ 16 /\
    raw_allocations_hash_ (UpdateAllocationsHash (uint32 value) h) =
      AddCharacterCore (AddCharacterCore (raw_allocations_hash_ h) lo) hi /\
    same_memory h (UpdateAllocationsHash (uint32 value) h) /\
    allocations_count_ (UpdateAllocationsHash (uint32 value) h)
      = allocations_count_ h.
Proof.
  exists (uint16 (uint32 value)), (uint16 (Z.shiftr (uint32 value) 16)).
  unfold uint16, uint32.
  pose proof (Z.mod_pos_bound value (2 ^ 32) ltac:(lia)) as Hv.
  rewrite Z.shiftr_div_pow2 by lia.
  set (v := value mod 2 ^ 32) in *.
  assert (Hq : 0 <= v / 2 ^ 16 < 2 ^ 16).
  { split; [apply Z.div_pos; lia|]. apply Z.div_lt_upper_bound; lia. }
  split; [apply Z.mod_pos_bound; lia|].
  split; [apply Z.mod_pos_bound; lia|].
  split.
  - rewrite (Z.mod_small (v / 2 ^ 16)) by lia.
    pose proof (Z.div_mod v (2 ^ 16) ltac:(lia)). lia.
  - split; [|split]; try reflexivity.
    unfold UpdateAllocationsHash, uint16. cbn.
    rewrite Z.shiftr_div_pow2 by lia. reflexivity.
    repeat split.
Qed.


End FurtherProperties.

(** ** The properties on the concrete configuration *)

Section Evaluation.
#[local] Existing Instance Sample.x64.
#[local] Existing Instance Sample.predictable.
#[local] Existing Instance Sample.collaborators.

Lemma x64_ok : PlatformOk.
Proof. constructor; cbn; lia. Qed.

Lemma collaborators_ok : CollaboratorsOk.
Proof.
  constructor. intros [size a|size a|size|size|size e] h; cbn; try reflexivity.
  destruct (_ <=? _); reflexivity.
Qed.

Lemma runs_agree : Forall2 (same_event Sample.heap Sample.shifted_heap)
                           Sample.run1 Sample.run2.
Proof.
  unfold Sample.run1, Sample.run2.
  repeat constructor; vm_compute; reflexivity.
Qed.

(** A large young request on the sample heap. *)
Lemma AllocateRaw_large_young_request_witness :
  kMaxRegularHeapObjectSize < 600000 /\
  AllocateRaw 600000 NEW_SPACE kWordAligned Sample.heap =
    AllocateRaw 600000 LO_SPACE kWordAligned Sample.heap.
Proof.
  assert (Hlarge : kMaxRegularHeapObjectSize < 600000) by (cbn; lia).
  split; [exact Hlarge|].
  exact (proj1 (AllocateRaw_large_young_request_goes_to_large_object_space
                  collaborators_ok 600000 kWordAligned Sample.heap Hlarge)).
Defined.

(** A small young request on the sample heap. *)
Lemma AllocateRaw_fires_hook_witness :
  exists r h' c t,
    AllocateRaw 24 NEW_SPACE kWordAligned Sample.heap = Returns r h' /\
    trace h' = trace Sample.heap ++ EvSpace c :: t /\
    (IsRetry r = false ->
     exists object,
       r = Success object /\
       hook_calls t = [(object, 24)] /\
       hook_calls (trace h') = hook_calls (trace Sample.heap) ++ [(object, 24)]) /\
    (IsRetry r = true ->
     hook_calls t = [] /\ hook_calls (trace h') = hook_calls (trace Sample.heap)).
Proof.
  exact (AllocateRaw_fires_hook_once_iff_success
           collaborators_ok 24 NEW_SPACE kWordAligned Sample.heap).
Defined.


(** The object at [0x100200] lies below the age mark [0x100400] of its
    page. *)
Lemma FindAllocationMemento_below_age_mark_witness :
  IsFlagSet (object_page Sample.heap (1048576 + 512)) NEW_SPACE_BELOW_AGE_MARK
    = true /\
  (FindAllocationMemento kForGC (HeapObj 0) (1048576 + 512) Sample.heap).1 = None.
Proof.
  assert (Hflag : IsFlagSet (object_page Sample.heap (1048576 + 512))
                            NEW_SPACE_BELOW_AGE_MARK = true) by reflexivity.
  split; [exact Hflag|].
  refine (proj2 (FindAllocationMemento_below_age_mark
                   kForGC (HeapObj 0) (1048576 + 512) Sample.heap Hflag) _).
  right. vm_compute. reflexivity.
Defined.

(** The two sample runs, laid out one page apart. *)
Lemma deterministic_hash_replay_witness :
  raw_allocations_hash_ (replay Sample.run1 Sample.heap) =
    raw_allocations_hash_ (replay Sample.run2 Sample.shifted_heap).
Proof.
  exact (proj1 (proj1 (deterministic_hash_replay
                         Sample.heap Sample.shifted_heap Sample.run1 Sample.run2
                         eq_refl eq_refl eq_refl runs_agree))).
Defined.

(** *** Worked examples *)

(** The write barrier over the truth table of its condition: only the
    store of a young value into an old heap object is recorded. *)
Example RecordWrite_truth_table :
  let young := HeapObj Sample.young_object in
  let old := HeapObj Sample.array in
  let sb container value :=
    store_buffer (RecordWrite container 3145768 value Sample.array_heap) in
  sb old young = [3145768] /\ sb old old = [] /\ sb old (Smi 7) = [] /\
  sb young young = [] /\ sb young old = [] /\ sb young (Smi 7) = [] /\
  sb (Smi 1) young = [] /\ sb (Smi 1) old = [].
Proof. vm_compute. repeat split. Qed.

(** Element 3 of a ten-element old array holds a young pointer: exactly
    the slot of element 3 is recorded. *)
Example RecordFixedArrayElements_element_3 :
  store_buffer (RecordFixedArrayElements Sample.array 0 10 Sample.array_heap)
    = [RawFieldOfElementAt Sample.array 3].
Proof. vm_compute. reflexivity. Qed.

(** The candidate behind the object at [0x80100] is the allocation top:
    the runtime lookup rejects it, the GC lookup accepts the same words. *)
Example modes_differ_at_allocation_top :
  candidate_address Sample.heap (HeapObj 0) (524288 + 256) = NewSpaceTop Sample.heap /\
  (FindAllocationMemento kForRuntime (HeapObj 0) (524288 + 256) Sample.heap).1 = None /\
  (FindAllocationMemento kForGC (HeapObj 0) (524288 + 256) Sample.heap).1
    = Some (524288 + 256 + 32).
Proof. vm_compute. repeat split. Qed.

(** Objects ending at the page boundary [0x100000]: with the candidate
    on the next page, or only its first word on this page, only the size
    function is called; with both words on the page the candidate word is
    loaded and compared with the root. *)
Example FindAllocationMemento_at_page_end :
  FindAllocationMemento kForGC (HeapObj 0) (1048576 - 32) Sample.heap
    = (None, [CallSizeFromMap (HeapObj 0) (1048576 - 32)]) /\
  FindAllocationMemento kForGC (HeapObj 0) (1048576 - 40) Sample.heap
    = (None, [CallSizeFromMap (HeapObj 0) (1048576 - 40)]) /\
  FindAllocationMemento kForGC (HeapObj 0) (1048576 - 48) Sample.heap
    = (None, [CallSizeFromMap (HeapObj 0) (1048576 - 48);
              LoadWord (1048576 - 16);
              LoadRoot kAllocationMementoMapRootIndex]).
Proof. vm_compute. repeat split. Qed.

(** A full runtime lookup behind the aged object at [0x100800]: the size
    function, the candidate word, the root, the page header for the flag,
    the owner and its age mark, the page header for the bounds, the
    allocation top and the validity check. *)
Example FindAllocationMemento_full_run :
  FindAllocationMemento kForRuntime (HeapObj 0) (1048576 + 2048) Sample.heap
    = (Some (1048576 + 2048 + 32),
       [CallSizeFromMap (HeapObj 0) (1048576 + 2048);
        LoadWord (1048576 + 2048 + 32);
        LoadRoot kAllocationMementoMapRootIndex;
        LoadPageHeader 1048576;
        LoadPageHeader 1048576; LoadSpaceAgeMark 1048576;
        LoadPageHeader 1048576;
        LoadNewSpaceTop;
        CallIsValid (1048576 + 2048 + 32)]).
Proof. vm_compute. reflexivity. Qed.


(** A small young allocation succeeds and fires the hook once; one that
    does not fit is a retry and fires nothing. *)
Example AllocateRaw_young_success_and_retry :
  (exists h', AllocateRaw 24 NEW_SPACE kWordAligned Sample.heap
              = Returns (Success 524576) h' /\
              trace h' = [EvSpace (NewSpace_AllocateRaw 24 kWordAligned);
                          EvOnAllocationEvent 524576 24;
                          EvProfilerAllocationEvent 524576 24; EvTimeRequest]) /\
  (exists h', AllocateRaw 5000 NEW_SPACE kWordAligned Sample.heap
              = Returns (Retry NEW_SPACE) h' /\
              trace h' = [EvSpace (NewSpace_AllocateRaw 5000 kWordAligned)]).
Proof. split; eexists; split; vm_compute; reflexivity. Qed.

(** The two sample runs print the same digest. *)
Example replay_prints_same_digest :
  digests (trace (replay Sample.run1 Sample.heap)) = [(2, 3378344528)] /\
  digests (trace (replay Sample.run2 Sample.shifted_heap)) = [(2, 3378344528)].
Proof. vm_compute. split; reflexivity. Qed.

(** Finalizing twice disposes of resource 77 once. *)
Example FinalizeExternalString_twice :
  trace (FinalizeExternalString 4194304
           (FinalizeExternalString 4194304 Sample.heap)) = [EvDispose 77].
Proof. vm_compute. reflexivity. Qed.


End Evaluation.


(** ** The further properties on the concrete configuration *)

Section FurtherEvaluation.
#[local] Existing Instance Sample.x64.
#[local] Existing Instance Sample.predictable.
#[local] Existing Instance Sample.collaborators.
#[local] Existing Instance Sample2.sites.
#[local] Existing Instance Sample2.smi31.
#[local] Existing Instance Sample2.strings.
#[local] Existing Instance Sample2.smi_decoding.

(** A code object too large for a code page. *)
Lemma AllocateRaw_calls_one_space_witness :
  exists r h',
    AllocateRaw 600000 CODE_SPACE kWordAligned Sample.heap = Returns r h' /\
    space_calls (new_events Sample.heap h')
      = [LargeObjectSpace_AllocateRaw 600000 EXECUTABLE].
Proof.
  destruct (AllocateRaw_calls_one_space
              collaborators_ok 600000 CODE_SPACE kWordAligned Sample.heap)
    as (r & h' & E & Hcalls & _).
  exists r, h'. split; [exact E|]. rewrite Hcalls. reflexivity.
Defined.

(** An object in an old-space page. *)
Lemma hash_input_encodes_witness :
  hash_input (page_offset 1573376) OLD_SPACE
    = page_offset 1573376 + AllocationSpace_to_int OLD_SPACE * kPageSize.
Proof.
  exact (proj1 (proj1 (hash_input_encodes_offset_and_space x64_ok)
                  1573376 OLD_SPACE)).
Defined.

(** The ten elements of the sample array, as four and six. *)
Lemma RecordFixedArrayElements_splits_witness :
  RecordFixedArrayElements Sample.array 0 (4 + 6) Sample.array_heap =
    RecordFixedArrayElements Sample.array (0 + 4) 6
      (RecordFixedArrayElements Sample.array 0 4 Sample.array_heap).
Proof.
  assert (H4 : 0 <= 4) by lia. assert (H6 : 0 <= 6) by lia.
  exact (RecordFixedArrayElements_splits Sample.array 0 4 6 Sample.array_heap H4 H6).
Defined.

(** The object at [0x100200], below the age mark of its page. *)
Lemma promoted_objects_have_no_memento_witness :
  ShouldBePromoted Sample.heap
    (age_mark (owner (object_page Sample.heap (1048576 + 512)))) (1048576 + 512)
    = true /\
  (FindAllocationMemento kForRuntime (HeapObj 0) (1048576 + 512) Sample.heap).1
    = None.
Proof.
  assert (Hp : ShouldBePromoted Sample.heap
                 (age_mark (owner (object_page Sample.heap (1048576 + 512))))
                 (1048576 + 512) = true) by reflexivity.
  split; [exact Hp|].
  exact (promoted_objects_have_no_memento
           kForRuntime (HeapObj 0) (1048576 + 512) Sample.heap Hp).
Defined.

(** Three script ids across the wrap at [Smi::kMaxValue]. *)
Lemma NextScriptId_stays_in_range_witness :
  Forall (fun id => 1 <= id <= Smi_kMaxValue) (NextScriptIds 3 Sample2.roots).1.
Proof.
  assert (Hmax : 1 <= Smi_kMaxValue) by (vm_compute; congruence).
  assert (Hr : 0 <= last_script_id Sample2.roots <= Smi_kMaxValue)
    by (vm_compute; split; congruence).
  exact (proj1 (NextScriptId_stays_in_range 3 Sample2.roots Hmax Hr)).
Defined.

Example NextScriptIds_wrap :
  (NextScriptIds 3 Sample2.roots).1 = [2 ^ 31 - 2; 2 ^ 31 - 1; 1].
Proof. vm_compute. reflexivity. Qed.

(** A three-character string goes to the old space, which is exhausted on
    the sample heap: the retry is passed on. *)
Example AllocateOneByteInternalizedString_retry :
  exists h',
    AllocateOneByteInternalizedString [97; 98; 99] 5 Sample.heap
      = Returns (Retry OLD_SPACE) h' /\
    words h' = words Sample.heap /\
    trace h' = [EvSpace (OldSpace_AllocateRaw 24 kWordAligned)].
Proof. eexists. split; [vm_compute; reflexivity|]. split; reflexivity. Qed.

(** With the debug check compiled out, [RetrySpace] decodes the pointer of
    a success as if it were a Smi. *)
Example RetrySpace_of_a_success :
  RetrySpace (Success 2097152) = Some NEW_SPACE.
Proof. reflexivity. Qed.

End FurtherEvaluation.

Section EvaluationEveryThird.
#[local] Existing Instance Sample.x64.
#[local] Existing Instance Sample2.every_third.
#[local] Existing Instance Sample.collaborators.

(** Seven events with a digest every third one. *)
Lemma digests_every_kth_event_witness :
  List.map fst (digests (trace (replay Sample2.seven_events Sample.heap)))
    = [3; 6].
Proof.
  assert (Hk : 0 < FLAG_dump_allocations_digest_at_alloc < 2 ^ 32)
    by (vm_compute; split; reflexivity).
  assert (Hc : 0 <= allocations_count_ Sample.heap) by (vm_compute; congruence).
  assert (Hn : allocations_count_ Sample.heap
               + Z.of_nat (length Sample2.seven_events) < 2 ^ 32)
    by (vm_compute; reflexivity).
  exact (proj2 (digests_every_kth_event Sample2.seven_events Sample.heap
                  eq_refl Hk Hc Hn)).
Defined.

End EvaluationEveryThird.

Section EvaluationSampling.
#[local] Existing Instance Sample.x64.
#[local] Existing Instance Sample2.sampling.
#[local] Existing Instance Sample.collaborators.

(** An allocation event with deterministic-hash mode off. *)
Lemma hooks_keep_hash_witness :
  raw_allocations_hash_ (OnAllocationEvent 524544 32 Sample.heap)
    = raw_allocations_hash_ Sample.heap.
Proof.
  exact (proj1 (hooks_keep_hash_when_not_predictable
                  524544 0 0 32 Sample.heap eq_refl)).
Defined.

(** With a stack sample every second allocation, the second of two
    allocation events prints a stack. *)
Example stack_sampled_every_second_allocation :
  stack_prints (trace (OnAllocationEvent 524544 32 Sample.heap)) = [] /\
  stack_prints (trace (OnAllocationEvent 524576 32
                         (OnAllocationEvent 524544 32 Sample.heap)))
    = [EvPrintStack].
Proof. vm_compute. split; reflexivity. Qed.

End EvaluationSampling.
